(** * generate-schemas.js: node property definitions to JSON Schema

    A shallow embedding of the conversion engine of [generate-schemas.js]
    ([propToSchema], [descToSchema], [safeName]) together with the part of
    the JavaScript runtime those three functions rely on, and the
    properties of the engine stated by the specification. *)

From Stdlib Require Import ZArith String Ascii List Bool Lia DecimalString Permutation.
Import ListNotations.
Open Scope string_scope.

#[local] Arguments String.eqb : simpl nomatch.

(** ** The runtime: values, completions, coercions, own properties *)

Module Js.

(** Values the generator handles: the data of a node description.
    Numbers are the integer-valued ones (so [NaN] is absent and the only
    falsy number is [0]); a string is a sequence of code units, each
    [ascii] standing for the unit of the same code (U+0000 to U+00FF).
    An object is the list of its own properties in creation order; its
    prototype is [Object.prototype], an array's is [Array.prototype]. *)
Unset Elimination Schemes.
Inductive value : Type :=
| VUndef
| VNull
| VBool (b : bool)
| VNum (n : Z)
| VStr (s : string)
| VArr (elems : list value)
| VObj (props : list (string * value)).
Set Elimination Schemes.

Definition obj : Type := list (string * value).

(** How the evaluation of a piece of code ends.  Every exception the
    three functions can raise on the values above is a [TypeError];
    [OutOfFuel] belongs to the embedding only (see [propToSchema]). *)
Inductive completion (A : Type) : Type :=
| Normal (a : A)
| TypeError
| OutOfFuel.
Arguments Normal {A} a.
Arguments TypeError {A}.
Arguments OutOfFuel {A}.

Definition bind {A B} (c : completion A) (k : A -> completion B) : completion B :=
  match c with
  | Normal a => k a
  | TypeError => TypeError
  | OutOfFuel => OutOfFuel
  end.

(** [Array.prototype.map] with a callback that may throw. *)
Fixpoint mapM {A B} (f : A -> completion B) (l : list A) : completion (list B) :=
  match l with
  | [] => Normal []
  | x :: tl =>
      bind (f x) (fun y => bind (mapM f tl) (fun ys => Normal (y :: ys)))
  end.

(** [Array.prototype.filter] with a callback that may throw. *)
Fixpoint filterM {A} (f : A -> completion bool) (l : list A) : completion (list A) :=
  match l with
  | [] => Normal []
  | x :: tl =>
      bind (f x) (fun keep =>
      bind (filterM f tl) (fun r => Normal (if keep then x :: r else r)))
  end.

(** [for (const x of l) body], the loop state threaded through. *)
Fixpoint for_of {A S} (l : list A) (body : S -> A -> completion S) (st : S) : completion S :=
  match l with
  | [] => Normal st
  | x :: tl => bind (body st x) (for_of tl body)
  end.

(** ToBoolean. *)
Definition truthy (v : value) : bool :=
  match v with
  | VUndef | VNull => false
  | VBool b => b
  | VNum n => negb (n =? 0)%Z
  | VStr s => negb (s =? "")
  | VArr _ | VObj _ => true
  end.

Definition is_undefined (v : value) : bool :=
  match v with VUndef => true | _ => false end.

Definition is_null (v : value) : bool :=
  match v with VNull => true | _ => false end.

Definition isArray (v : value) : bool :=
  match v with VArr _ => true | _ => false end.

(** [v === 'lit']. *)
Definition is_string (lit : string) (v : value) : bool :=
  match v with VStr s => s =? lit | _ => false end.

(** Own property lookup. *)
Fixpoint lookup (k : string) (o : obj) : option value :=
  match o with
  | [] => None
  | (k', v) :: tl => if k' =? k then Some v else lookup k tl
  end.

Definition has_own (k : string) (o : obj) : bool :=
  match lookup k o with Some _ => true | None => false end.

Definition get_own (o : obj) (k : string) : value :=
  match lookup k o with Some v => v | None => VUndef end.

(** [v?.k], and [v.k] where [v] is known not to be [null] or
    [undefined].  The names the generator reads ([name], [type],
    [options], [value], ...) are own properties or nothing: no built-in
    prototype defines them, except [Array.prototype.values], which is
    only ever read from values that have a [name]. *)
Definition get (v : value) (k : string) : value :=
  match v with
  | VObj o => get_own o k
  | _ => VUndef
  end.

(** [v.k] with nothing known about [v]. *)
Definition read (v : value) (k : string) : completion value :=
  match v with
  | VUndef | VNull => TypeError
  | _ => Normal (get v k)
  end.

(** ['value' in v]: a [TypeError] unless [v] is an object. *)
Definition value_in (v : value) : completion bool :=
  match v with
  | VObj o => Normal (has_own "value" o)
  | VArr _ => Normal false
  | _ => TypeError
  end.

(** [String(n)] for a number: the decimal numeral.  This is what the
    engine prints for the integers it holds exactly, those of magnitude
    up to [2^53]; beyond them a number is rounded, and from [1e21] on
    printed with an exponent, so that larger integers stand for no number
    of the engine and their numeral here for no string of it. *)
Definition string_of_Z (n : Z) : string :=
  NilZero.string_of_int (Z.to_int n).

Fixpoint join (sep : string) (l : list string) : string :=
  match l with
  | [] => ""
  | [s] => s
  | s :: tl => s ++ sep ++ join sep tl
  end.

(** [String(v)], ToString.  An object is converted by the [toString] it
    finds: [Object.prototype.toString], unless an own property of that
    name hides it; an own property holds data, which cannot be called,
    and [valueOf] then gives back the object: a [TypeError].  An array
    is joined, [null] and [undefined] elements as empty strings. *)
Fixpoint to_string (v : value) : completion string :=
  match v with
  | VUndef => Normal "undefined"
  | VNull => Normal "null"
  | VBool true => Normal "true"
  | VBool false => Normal "false"
  | VNum n => Normal (string_of_Z n)
  | VStr s => Normal s
  | VArr l =>
      bind ((fix elems (l : list value) : completion (list string) :=
               match l with
               | [] => Normal []
               | x :: tl =>
                   bind (match x with
                         | VUndef | VNull => Normal ""
                         | _ => to_string x
                         end) (fun s =>
                   bind (elems tl) (fun ss => Normal (s :: ss)))
               end) l)
           (fun ss => Normal (join "," ss))
  | VObj o => if has_own "toString" o then TypeError else Normal "[object Object]"
  end.

(** ToPropertyKey, for [o[k] = v] with a computed [k]. *)
Definition to_property_key (v : value) : completion string := to_string v.

Fixpoint replace (k : string) (v : value) (o : obj) : obj :=
  match o with
  | [] => []
  | (k', v') :: tl => if k' =? k then (k', v) :: tl else (k', v') :: replace k v tl
  end.

(** [o[k] = v] on an object the generator has created.  A new property
    goes last, an existing one keeps its place.  [__proto__] is the
    accessor of [Object.prototype]: assigning to it changes the
    prototype or nothing, the own properties stay as they are. *)
Definition set (o : obj) (k : string) (v : value) : obj :=
  if k =? "__proto__" then o
  else if has_own k o then replace k v o
  else (o ++ [(k, v)])%list.

Definition keys (o : obj) : list string := map fst o.

End Js.

Import Js.

Notation "'let*' x ':=' c 'in' k" := (bind c (fun x => k))
  (at level 10, x name, c at level 200, k at level 200).

(** ** The regular expressions of [safeName] *)

Module Re.

Definition code (c : ascii) : nat := nat_of_ascii c.

(** The class of the first [replace]: the control characters U+0000 to
    U+001F and the nine punctuation marks less-than, greater-than, colon,
    double quote, slash, backslash, bar, question mark and asterisk. *)
Definition forbidden (c : ascii) : bool :=
  (code c <=? 31)%nat
  || existsb (Nat.eqb (code c)) [60; 62; 58; 34; 47; 92; 124; 63; 42]%nat.

(** The class of white space, which is also what [trim] strips: TAB, LF, VT, FF,
    CR, SPACE and NO-BREAK SPACE among the code units below U+0100. *)
Definition whitespace (c : ascii) : bool :=
  existsb (Nat.eqb (code c)) [9; 10; 11; 12; 13; 32; 160]%nat.

Definition underscore (c : ascii) : bool := (code c =? 95)%nat.

(** The first [replace]: every character of class [p] is deleted. *)
Fixpoint remove (p : ascii -> bool) (s : string) : string :=
  match s with
  | EmptyString => EmptyString
  | String c r => if p c then remove p r else String c (remove p r)
  end.

(** A [replace] of runs: every maximal run of [p] becomes one
    underscore; [in_run] tells that the run's underscore is out already. *)
Fixpoint squeeze (p : ascii -> bool) (in_run : bool) (s : string) : string :=
  match s with
  | EmptyString => EmptyString
  | String c r =>
      if p c then
        if in_run then squeeze p true r else String "_" (squeeze p true r)
      else String c (squeeze p false r)
  end.

(** The second [replace]: runs of white space. *)
Definition replace_whitespace_runs : string -> string := squeeze whitespace false.

(** The third [replace]: a run of two or more underscores becomes
    one and a single underscore is not touched, so that every maximal
    run leaves exactly one. *)
Definition collapse_underscores : string -> string := squeeze underscore false.

Fixpoint drop_leading (p : ascii -> bool) (s : string) : string :=
  match s with
  | EmptyString => EmptyString
  | String c r => if p c then drop_leading p r else s
  end.

Fixpoint drop_trailing (p : ascii -> bool) (s : string) : string :=
  match s with
  | EmptyString => EmptyString
  | String c r =>
      match drop_trailing p r with
      | EmptyString => if p c then EmptyString else String c EmptyString
      | r' => String c r'
      end
  end.

(** The fourth [replace]: leading and trailing underscores go. *)
Definition strip_underscores (s : string) : string :=
  drop_trailing underscore (drop_leading underscore s).

(** [s.trim()]. *)
Definition trim (s : string) : string :=
  drop_trailing whitespace (drop_leading whitespace s).

End Re.

(** ** The program *)

(** [safeName], lines 221-228. *)
Definition sanitize (s : string) : string :=
  Re.trim
    (Re.strip_underscores
       (Re.collapse_underscores
          (Re.replace_whitespace_runs
             (Re.remove Re.forbidden s)))).

Definition safeName (str : value) : completion string :=
  let* s := to_string (if truthy str then str else VStr "unknown") in
  let r := sanitize s in
  Normal (if r =? "" then "unknown" else r).

(** [if (c) s[k] = v]. *)
Definition set_if (c : bool) (s : obj) (k : string) (v : value) : obj :=
  if c then set s k v else s.

Definition str_array (l : list string) : value := VArr (map VStr l).

(** The fields every fragment starts with, lines 14-19. *)
Definition common (prop : value) : obj :=
  let s := [] in
  let s := set_if (truthy (get prop "displayName")) s "x-title" (get prop "displayName") in
  let s := set_if (truthy (get prop "description")) s "description" (get prop "description") in
  let s := set_if (negb (is_undefined (get prop "default"))) s "default" (get prop "default") in
  let s := set_if (truthy (get prop "displayOptions")) s "x-displayOptions" (get prop "displayOptions") in
  let s := set_if (truthy (get prop "required")) s "x-required" (VBool true) in
  s.

(** The arms of the [switch] on [prop.type], line 21. *)
Inductive arm : Type :=
| AString | ANumber | ABoolean | AOptions | AMultiOptions | ACollection
| AFixedCollection | AJson | ADateTime | AColor | AResourceLocator | AFilter
| ACredentialsSelect | AAssignmentCollection | ADefault.

Definition arms : list (string * arm) :=
  [("string", AString); ("hidden", AString); ("number", ANumber);
   ("boolean", ABoolean); ("options", AOptions); ("multiOptions", AMultiOptions);
   ("collection", ACollection); ("fixedCollection", AFixedCollection);
   ("json", AJson); ("dateTime", ADateTime); ("color", AColor);
   ("resourceLocator", AResourceLocator); ("filter", AFilter);
   ("credentialsSelect", ACredentialsSelect);
   ("assignmentCollection", AAssignmentCollection)].

Fixpoint select (t : string) (l : list (string * arm)) : arm :=
  match l with
  | [] => ADefault
  | (label, a) :: tl => if t =? label then a else select t tl
  end.

(** The arm a tag selects: the labels are compared with [===]. *)
Definition arm_of (tag : value) : arm :=
  match tag with
  | VStr t => select t arms
  | _ => ADefault
  end.

(** [o && 'value' in o && o.value !== undefined], line 42. *)
Definition valid_option (o : value) : completion bool :=
  if truthy o then
    let* declared := value_in o in
    Normal (declared && negb (is_undefined (get o "value")))
  else Normal false.

(** [o && 'value' in o], line 52. *)
Definition valid_multi_option (o : value) : completion bool :=
  if truthy o then value_in o else Normal false.

(** [o.name || String(o.value)], lines 44 and 54. *)
Definition enum_name (o : value) : completion value :=
  if truthy (get o "name") then Normal (get o "name")
  else let* n := to_string (get o "value") in Normal (VStr n).

(** [o.description || ''], line 45. *)
Definition enum_description (o : value) : value :=
  if truthy (get o "description") then get o "description" else VStr "".

(** The body of the loops over sub-definitions, lines 63-67 and 82-86. *)
Definition add_sub (rec : value -> completion value) (props : obj) (sub : value)
  : completion obj :=
  if negb (truthy sub) || negb (truthy (get sub "name")) then Normal props
  else
    let* subS := rec sub in
    if truthy subS then
      let* k := to_property_key (get sub "name") in
      Normal (set props k subS)
    else Normal props.

(** The body of the loop over groups, lines 74-96. *)
Definition add_group (rec : value -> completion value) (prop : value) (props : obj)
  (group : value) : completion obj :=
  if negb (truthy group) || negb (truthy (get group "name")) then Normal props
  else
    let multi :=
      truthy (get prop "typeOptions")
      && truthy (get (get prop "typeOptions") "multipleValues") in
    let groupSchema := [] in
    let groupSchema :=
      set_if (truthy (get group "displayName")) groupSchema "x-title" (get group "displayName") in
    let groupSchema :=
      set_if (truthy (get group "description")) groupSchema "description" (get group "description") in
    let* itemProps :=
      match get group "values" with
      | VArr subs => for_of subs (add_sub rec) []
      | _ => Normal []
      end in
    let groupSchema :=
      if multi then
        set (set groupSchema "type" (VStr "array"))
          "items" (VObj [("type", VStr "object"); ("properties", VObj itemProps)])
      else
        set (set groupSchema "type" (VStr "object")) "properties" (VObj itemProps) in
    let* k := to_property_key (get group "name") in
    Normal (set props k (VObj groupSchema)).

(** [{ name: m.name, displayName: m.displayName, type: m.type }], lines 127-131. *)
Definition mode_record (m : value) : completion value :=
  let* n := read m "name" in
  let* d := read m "displayName" in
  let* t := read m "type" in
  Normal (VObj [("name", n); ("displayName", d); ("type", t)]).

Definition default_modes : list value := [VStr "id"; VStr "url"; VStr "list"].

Definition filter_properties : value :=
  VObj
    [("conditions",
       VObj [("type", VStr "array");
             ("items",
               VObj [("type", VStr "object");
                     ("properties",
                       VObj [("leftValue", VObj [("type", VStr "string")]);
                             ("rightValue", VObj []);
                             ("operator", VObj [("type", VStr "object")])])])]);
     ("combinator",
       VObj [("type", VStr "string"); ("enum", str_array ["and"; "or"]);
             ("default", VStr "and")]);
     ("options",
       VObj [("type", VStr "object");
             ("properties",
               VObj [("caseSensitive", VObj [("type", VStr "boolean")]);
                     ("leftValue", VObj [("type", VStr "string")]);
                     ("typeValidation", VObj [("type", VStr "string")])])])].

Definition credentials_properties : value :=
  VObj [("credsType", VObj [("type", VStr "string")]);
        ("nodeCredentialType", VObj [("type", VStr "string")])].

Definition assignment_properties : value :=
  VObj
    [("assignments",
       VObj [("type", VStr "array");
             ("items",
               VObj [("type", VStr "object");
                     ("properties",
                       VObj [("id", VObj [("type", VStr "string")]);
                             ("name", VObj [("type", VStr "string")]);
                             ("value", VObj []);
                             ("type",
                               VObj [("type", VStr "string");
                                     ("enum",
                                       str_array ["string"; "number"; "boolean";
                                                  "object"; "array"])])]);
                     ("required", str_array ["name"])])])].

Definition json_branches : value :=
  VArr [VObj [("type", VStr "string"); ("description", VStr "JSON string")];
        VObj [("type", VStr "object")];
        VObj [("type", VStr "array")]].

Definition color_pattern : string := "^#[0-9a-fA-F]{6}([0-9a-fA-F]{2})?$".

(** The [switch], lines 21-188; [rec] is the converter itself, for the
    sub-definitions. *)
Definition convert (rec : value -> completion value) (prop : value) (s : obj)
  : completion obj :=
  let typeOptions := get prop "typeOptions" in
  match arm_of (get prop "type") with
  | AString =>
      let s := set s "type" (VStr "string") in
      let s := set_if (truthy (get typeOptions "password")) s "format" (VStr "password") in
      let s := set_if (truthy (get typeOptions "rows")) s "x-rows" (get typeOptions "rows") in
      let s := set_if (truthy (get typeOptions "editor")) s "x-editor" (get typeOptions "editor") in
      Normal s
  | ANumber =>
      let s := set s "type" (VStr "number") in
      let s := set_if (negb (is_undefined (get typeOptions "minValue")))
                 s "minimum" (get typeOptions "minValue") in
      let s := set_if (negb (is_undefined (get typeOptions "maxValue")))
                 s "maximum" (get typeOptions "maxValue") in
      let s := set_if (negb (is_undefined (get typeOptions "numberPrecision")))
                 s "x-precision" (get typeOptions "numberPrecision") in
      let s := set_if (negb (is_undefined (get typeOptions "numberStepSize")))
                 s "x-stepSize" (get typeOptions "numberStepSize") in
      Normal s
  | ABoolean =>
      Normal (set s "type" (VStr "boolean"))
  | AOptions =>
      let s := set s "type" (VStr "string") in
      match get prop "options" with
      | VArr options =>
          let* validOptions := filterM valid_option options in
          let s := set s "enum" (VArr (map (fun o => get o "value") validOptions)) in
          let* names := mapM enum_name validOptions in
          let s := set s "x-enumNames" (VArr names) in
          let descs := map enum_description validOptions in
          let s := set_if (existsb truthy descs) s "x-enumDescriptions" (VArr descs) in
          Normal s
      | _ => Normal s
      end
  | AMultiOptions =>
      let s := set s "type" (VStr "array") in
      match get prop "options" with
      | VArr options =>
          let* validOptions := filterM valid_multi_option options in
          let s := set s "items"
                     (VObj [("type", VStr "string");
                            ("enum", VArr (map (fun o => get o "value") validOptions))]) in
          let* names := mapM enum_name validOptions in
          Normal (set s "x-enumNames" (VArr names))
      | _ => Normal (set s "items" (VObj [("type", VStr "string")]))
      end
  | ACollection =>
      let s := set s "type" (VStr "object") in
      match get prop "options" with
      | VArr options =>
          let* properties := for_of options (add_sub rec) [] in
          Normal (set s "properties" (VObj properties))
      | _ => Normal s
      end
  | AFixedCollection =>
      let s := set s "type" (VStr "object") in
      let* properties :=
        match get prop "options" with
        | VArr options => for_of options (add_group rec prop) []
        | _ => Normal []
        end in
      Normal (set s "properties" (VObj properties))
  | AJson =>
      Normal (set s "oneOf" json_branches)
  | ADateTime =>
      let s := set s "type" (VStr "string") in
      Normal (set s "format" (VStr "date-time"))
  | AColor =>
      let s := set s "type" (VStr "string") in
      let s := set s "pattern" (VStr color_pattern) in
      Normal (set s "x-format" (VStr "color"))
  | AResourceLocator =>
      let s := set s "type" (VStr "object") in
      let* modeValues :=
        match get prop "modes" with
        | VArr modes =>
            let* names := mapM (fun m => read m "name") modes in
            Normal (filter truthy names)
        | _ => Normal default_modes
        end in
      let s := set s "properties"
                 (VObj [("__rl", VObj [("type", VStr "boolean"); ("const", VBool true)]);
                        ("mode", VObj [("type", VStr "string"); ("enum", VArr modeValues)]);
                        ("value", VObj [("type", VStr "string")])]) in
      let s := set s "required" (str_array ["mode"; "value"]) in
      match get prop "modes" with
      | VArr modes =>
          let* records := mapM mode_record modes in
          Normal (set s "x-modes" (VArr records))
      | _ => Normal s
      end
  | AFilter =>
      let s := set s "type" (VStr "object") in
      Normal (set s "properties" filter_properties)
  | ACredentialsSelect =>
      let s := set s "type" (VStr "object") in
      Normal (set s "properties" credentials_properties)
  | AAssignmentCollection =>
      let s := set s "type" (VStr "object") in
      Normal (set s "properties" assignment_properties)
  | ADefault =>
      let s := set s "type" (VStr "string") in
      Normal (set s "x-n8n-type" (get prop "type"))
  end.

(** The guard of line 12: [!prop || !prop.name || prop.type === 'notice']. *)
Definition no_contribution (prop : value) : bool :=
  negb (truthy prop) || negb (truthy (get prop "name"))
  || is_string "notice" (get prop "type").

(** [propToSchema], lines 11-191, with the depth of the recursion bounded
    by [fuel]. *)
Fixpoint propToSchema_fuel (fuel : nat) (prop : value) : completion value :=
  match fuel with
  | O => OutOfFuel
  | S fuel =>
      if no_contribution prop then Normal VNull
      else
        let* s := convert (propToSchema_fuel fuel) prop (common prop) in
        Normal (VObj s)
  end.

(** The nesting depth of a value. *)
Fixpoint depth (v : value) : nat :=
  match v with
  | VArr l => S (fold_right (fun x d => Nat.max (depth x) d) O l)
  | VObj o => S (fold_right (fun kv d => Nat.max (depth (snd kv)) d) O o)
  | _ => O
  end.

(** [propToSchema]: the recursion descends into the definition, so its
    depth is fuel enough ([propToSchema_enough_fuel]); the call stack of
    the engine is taken to be as deep as the definition needs. *)
Definition propToSchema (prop : value) : completion value :=
  propToSchema_fuel (S (depth prop)) prop.

(** What [for (const x of v)] goes through: the elements of an array, the
    characters of a string; anything else is not iterable. *)
Fixpoint chars (s : string) : list value :=
  match s with
  | EmptyString => []
  | String c r => VStr (String c EmptyString) :: chars r
  end.

Definition iterate (v : value) : completion (list value) :=
  match v with
  | VArr l => Normal l
  | VStr s => Normal (chars s)
  | _ => TypeError
  end.

(** The body of the loop of [descToSchema], lines 212-216. *)
Definition add_prop (properties : obj) (prop : value) : completion obj :=
  if negb (truthy prop) || negb (truthy (get prop "name")) then Normal properties
  else
    let* propSchema := propToSchema prop in
    if negb (is_null propSchema) then
      let* k := to_property_key (get prop "name") in
      Normal (set properties k propSchema)
    else Normal properties.

(** [descToSchema], lines 193-219. *)
Definition descToSchema (desc versionLabel : value) : completion value :=
  let* displayName := read desc "displayName" in
  let schema :=
    [("$schema", VStr "http://json-schema.org/draft-07/schema#");
     ("title", if truthy displayName then displayName else get desc "name");
     ("description",
       if truthy (get desc "description") then get desc "description" else VStr "");
     ("x-n8n-node-type", get desc "name");
     ("x-n8n-version",
       if negb (is_undefined versionLabel) then versionLabel
       else if truthy (get desc "version") then get desc "version" else VNum 1);
     ("x-n8n-group",
       if isArray (get desc "group") then get desc "group"
       else VArr (filter truthy [get desc "group"]));
     ("type", VStr "object");
     ("properties", VObj [])] in
  let schema := set_if (truthy (get desc "subtitle")) schema "x-subtitle" (get desc "subtitle") in
  let schema := set_if (truthy (get desc "icon")) schema "x-icon" (get desc "icon") in
  let schema := set_if (truthy (get desc "inputs")) schema "x-inputs" (get desc "inputs") in
  let schema := set_if (truthy (get desc "outputs")) schema "x-outputs" (get desc "outputs") in
  let schema :=
    set_if (truthy (get desc "credentials")) schema "x-credentials" (get desc "credentials") in
  let schema := set_if (truthy (get desc "webhooks")) schema "x-webhooks" (VStr "true") in
  let* props :=
    iterate (if truthy (get desc "properties") then get desc "properties" else VArr []) in
  let* properties := for_of props add_prop [] in
  Normal (VObj (set schema "properties" (VObj properties))).

(** ** The scenarios of the specification *)

Definition ex_timeout : value :=
  VObj [("name", VStr "timeout"); ("type", VStr "number");
        ("typeOptions", VObj [("minValue", VNum 0); ("maxValue", VNum 300)])].
Definition ex_mode : value :=
  VObj [("name", VStr "mode"); ("type", VStr "options");
        ("options", VArr [VObj [("name", VStr "Fast"); ("value", VStr "fast")];
                          VObj [("name", VStr "Slow"); ("value", VStr "slow"); ("description", VStr "x")]])].

(** ** The vocabulary of the specification *)

(** The input is absent. *)
Definition absent (prop : value) : Prop := prop = VUndef \/ prop = VNull.

(** The definition has no non-empty [name]. *)
Definition lacks_name (prop : value) : Prop := truthy (get prop "name") = false.

(** The definition carries the type tag [t]. *)
Definition tagged (t : string) (prop : value) : Prop := get prop "type" = VStr t.

(** A value is an object in the sense of the language: a record or an array. *)
Definition is_object (v : value) : bool :=
  match v with VObj _ | VArr _ => true | _ => false end.

Definition is_nullish (v : value) : bool :=
  match v with VUndef | VNull => true | _ => false end.

(** An entry of an [options] list declares a defined [value]: the key is
    there and what it holds is not [undefined]. *)
Definition declares_value (o : value) : bool :=
  match o with
  | VObj p => has_own "value" p && negb (is_undefined (get_own p "value"))
  | _ => false
  end.

(** An entry of an [options] list has the key [value], whatever it holds. *)
Definition has_value_key (o : value) : bool :=
  match o with
  | VObj p => has_own "value" p
  | _ => false
  end.

(** The entries of a list of choices or sub-definitions are records (or
    arrays), or falsy placeholders. *)
Definition entries_ok (v : value) : bool :=
  match v with
  | VArr l => forallb (fun o => negb (truthy o) || is_object o) l
  | _ => true
  end.

(** The entries of a list of modes are there. *)
Definition modes_ok (v : value) : bool :=
  match v with
  | VArr l => forallb (fun m => negb (is_nullish m)) l
  | _ => true
  end.

(** Well-formed input: data all the way down.  No record hides
    [Object.prototype.toString] behind a property of its own, the entries
    of every [options] list are records, arrays or falsy, and no entry of
    a [modes] list is [null] or [undefined]. *)
Fixpoint well_formed (v : value) : bool :=
  match v with
  | VArr l => forallb well_formed l
  | VObj o =>
      negb (has_own "toString" o)
      && forallb (fun kv => well_formed (snd kv)) o
      && entries_ok (get_own o "options")
      && modes_ok (get_own o "modes")
  | _ => true
  end.

(** The type keywords of JSON Schema. *)
Definition primitive_types : list string :=
  ["string"; "number"; "integer"; "boolean"; "object"; "array"; "null"].

(** The tags the converter knows: the labels of the [switch] and [notice]. *)
Definition recognized : list string := "notice" :: map fst arms.

(** The entry of a list of definitions that decides what the output holds
    under the key [k]: the last one with a name that converts to [k] and a
    conversion that succeeds with a fragment. *)
Definition settles (k : string) (prop : value) : bool :=
  truthy prop && truthy (get prop "name")
  && match to_property_key (get prop "name") with
     | Normal k' => k' =? k
     | _ => false
     end
  && match propToSchema prop with
     | Normal (VObj _) => true
     | _ => false
     end.

Fixpoint last_settled (k : string) (props : list value) : option value :=
  match props with
  | [] => None
  | prop :: tl =>
      match last_settled k tl with
      | Some frag => Some frag
      | None =>
          if settles k prop then
            match propToSchema prop with
            | Normal frag => Some frag
            | _ => None
            end
          else None
      end
  end.

(** The keys [common] may write. *)
Definition common_keys : list string :=
  ["x-title"; "description"; "default"; "x-displayOptions"; "x-required"].

(** How [Array.prototype.join] turns an element into a string. *)
Definition elem_string (x : value) : completion string :=
  match x with
  | VUndef | VNull => Normal ""
  | _ => to_string x
  end.

Definition ex_legacy : value := VObj [("name", VStr "when"); ("type", VStr "cron")].

Definition ex_bare_choice : value :=
  VObj [("name", VStr "mode"); ("type", VStr "options");
        ("options", VArr [VStr "fast"])].

Definition ex_choices : value :=
  VArr [VObj [("name", VStr "A"); ("value", VStr "a")];
        VObj [("name", VStr "B"); ("value", VUndef)]].

Definition ex_multi : value :=
  VObj [("name", VStr "tags"); ("type", VStr "multiOptions"); ("options", ex_choices)].

Definition ex_single : value :=
  VObj [("name", VStr "tags"); ("type", VStr "options"); ("options", ex_choices)].

(** The names a list of modes declares; a mode without one declares none. *)
Definition mode_names (modes : list value) : list value :=
  filter truthy (map (fun m => get m "name") modes).

(** What [x-modes] keeps of a mode. *)
Definition mode_metadata (m : value) : value :=
  VObj [("name", get m "name"); ("displayName", get m "displayName");
        ("type", get m "type")].

(** A definition of type [fixedCollection] has no named group. *)
Definition no_named_group (prop : value) : bool :=
  match get prop "options" with
  | VArr groups => forallb (fun g => negb (truthy g && truthy (get g "name"))) groups
  | _ => true
  end.

Definition ex_locator : value :=
  VObj [("name", VStr "channel"); ("type", VStr "resourceLocator");
        ("modes", VArr [VObj [("name", VStr "list"); ("displayName", VStr "From list");
                              ("type", VStr "list")];
                        VObj [("name", VStr "id"); ("displayName", VStr "By ID");
                              ("type", VStr "string")]])].

Definition ex_collection : value :=
  VObj [("name", VStr "extra"); ("type", VStr "collection")].

Definition ex_fixed : value :=
  VObj [("name", VStr "headers"); ("type", VStr "fixedCollection");
        ("options", VArr [VNull])].

(** *** Sanitised names *)

Definition non (p : ascii -> bool) (c : ascii) : bool := negb (p c).

Fixpoint all_chars (q : ascii -> bool) (s : string) : bool :=
  match s with
  | EmptyString => true
  | String c r => q c && all_chars q r
  end.

Definition starts (p : ascii -> bool) (s : string) : bool :=
  match s with
  | EmptyString => false
  | String c _ => p c
  end.

Fixpoint ends (p : ascii -> bool) (s : string) : bool :=
  match s with
  | EmptyString => false
  | String c EmptyString => p c
  | String _ r => ends p r
  end.

(** No two characters of class [p] in a row. *)
Fixpoint no_run (p : ascii -> bool) (s : string) : bool :=
  match s with
  | EmptyString => true
  | String c r => negb (p c && starts p r) && no_run p r
  end.

(** A name as [safeName] leaves it: no forbidden character, no white
    space, no two underscores in a row, none in front and none at the end. *)
Definition sanitized (s : string) : bool :=
  all_chars (non Re.forbidden) s
  && all_chars (non Re.whitespace) s
  && no_run Re.underscore s
  && negb (starts Re.underscore s)
  && negb (ends Re.underscore s).

Definition ex_unprintable : value := VObj [("toString", VNull)].

Definition ex_proto_desc : value :=
  VObj [("name", VStr "n8n-nodes-base.demo");
        ("properties", VArr [VObj [("name", VStr "__proto__"); ("type", VStr "string")]])].

Definition ex_duplicates : value :=
  VObj [("name", VStr "n8n-nodes-base.demo");
        ("properties",
          VArr [VObj [("name", VStr "url"); ("type", VStr "string")];
                VObj [("type", VStr "string")];
                VObj [("name", VStr "retries"); ("type", VStr "number")];
                VNull;
                VObj [("name", VStr "url"); ("type", VStr "boolean")];
                VObj [("name", VStr "retries"); ("type", VStr "notice")]])].

(** *** Vocabulary of the further properties *)

(** The definition passes the guard of line 12. *)
Definition contributes (prop : value) : bool := negb (no_contribution prop).

(** The attributes lines 15-19 read. *)
Definition common_attributes : list string :=
  ["displayName"; "description"; "default"; "displayOptions"; "required"].

(** The tags whose arm writes constants only. *)
Definition fixed_tags : list string :=
  ["boolean"; "json"; "dateTime"; "color"; "filter"; "credentialsSelect";
   "assignmentCollection"].

(** [!!(prop.typeOptions && prop.typeOptions.multipleValues)], line 76. *)
Definition multiple_values (prop : value) : bool :=
  truthy (get prop "typeOptions")
  && truthy (get (get prop "typeOptions") "multipleValues").

(** A character [safeName] does not keep: forbidden, white space or underscore. *)
Definition junk (c : ascii) : bool :=
  Re.forbidden c || Re.whitespace c || Re.underscore c.

(** The version suffix of line 281; [count] is [toProcess.length], [ver]
    the key of the version, [None] for the [null] of a node without
    versions. *)
Definition vSuffix (count : nat) (ver : option string) : string :=
  match ver with
  | Some v => if (1 <? count)%nat then "_v" ++ v else ""
  | None => ""
  end.

(** The file name of line 282. *)
Definition fname (merged : value) (count : nat) (ver : option string)
  : completion string :=
  let* stem :=
    safeName (if truthy (get merged "displayName") then get merged "displayName"
              else get merged "name") in
  Normal (stem ++ vSuffix count ver ++ ".json").

Definition ex_titled : value :=
  VObj [("name", VStr "apiKey"); ("displayName", VStr "API Key");
        ("type", VStr "string"); ("default", VStr "");
        ("required", VBool true);
        ("typeOptions", VObj [("password", VBool true); ("rows", VNum 0)])].

Definition ex_switch : value :=
  VObj [("name", VStr "active"); ("type", VStr "boolean"); ("default", VBool false)].

Definition ex_switch_payload : value :=
  VObj [("name", VStr "enabled"); ("type", VStr "boolean"); ("default", VBool false);
        ("options", VArr [VStr "on"; VStr "off"]); ("modes", VArr [VNull])].

Definition ex_plain_options : value :=
  VObj [("name", VStr "resource"); ("type", VStr "options"); ("options", VStr "loadOptions")].

Definition ex_plain_multi : value :=
  VObj [("name", VStr "fields"); ("type", VStr "multiOptions")].

Definition ex_null_mode : value :=
  VObj [("name", VStr "channel"); ("type", VStr "resourceLocator");
        ("modes", VArr [VObj [("name", VStr "id")]; VNull])].

(** The schema of a group of a [fixedCollection], lines 88-94: an array
    of objects when the definition allows multiple values, an object
    otherwise, the sub-definitions under [properties] either way. *)
Definition group_shape (multi : bool) (g : value) : Prop :=
  if multi then
    get g "type" = VStr "array"
    /\ (exists itemProps,
          get g "items" = VObj [("type", VStr "object"); ("properties", VObj itemProps)])
    /\ get g "properties" = VUndef
  else
    get g "type" = VStr "object"
    /\ (exists itemProps, get g "properties" = VObj itemProps)
    /\ get g "items" = VUndef.

Definition ex_nested : value :=
  VObj [("name", VStr "extra"); ("type", VStr "collection");
        ("options", VArr [ex_timeout; VNull; ex_mode;
                          VObj [("name", VStr "timeout"); ("type", VStr "boolean")]])].

Definition ex_nested_desc : value :=
  VObj [("name", VStr "n8n-nodes-base.demo");
        ("properties", VArr [ex_timeout; VNull; ex_mode;
                             VObj [("name", VStr "timeout"); ("type", VStr "boolean")]])].

Definition ex_grouped : value :=
  VObj [("name", VStr "headers"); ("type", VStr "fixedCollection");
        ("typeOptions", VObj [("multipleValues", VBool true)]);
        ("options", VArr [VObj [("name", VStr "parameter"); ("displayName", VStr "Header");
                                ("values", VArr [ex_timeout])]])].

Definition ex_filtered_desc : value :=
  VObj [("name", VStr "n8n-nodes-base.demo");
        ("properties", VArr [VObj [("name", VStr "url"); ("type", VStr "string")];
                             VObj [("name", VStr "retries"); ("type", VStr "number")];
                             VObj [("name", VStr "url"); ("type", VStr "boolean")]])].

Definition ex_broken_desc : value :=
  VObj [("name", VStr "n8n-nodes-base.demo");
        ("properties", VArr [ex_timeout; ex_bare_choice])].

Definition ex_broken_collection : value :=
  VObj [("name", VStr "extra"); ("type", VStr "collection");
        ("options", VArr [ex_timeout; ex_bare_choice])].

Definition ex_versioned_desc : value :=
  VObj [("name", VStr "n8n-nodes-base.httpRequest"); ("displayName", VStr "HTTP Request");
        ("version", VNum 0); ("group", VStr "output"); ("icon", VStr "fa:at");
        ("webhooks", VArr []); ("subtitle", VStr "")].

(** *** The merge of line 277 *)

(** A key that is an array index: the canonical numeral of a number below
    [2^32 - 1]. *)
Definition array_index (k : string) : option N :=
  match NilEmpty.uint_of_string k with
  | Some u =>
      let n := N.of_uint u in
      if (NilZero.string_of_uint (N.to_uint n) =? k) && (n <? 4294967295)%N
      then Some n else None
  | None => None
  end.

Fixpoint insert_index (n : N) (e : string * value) (l : list (N * (string * value)))
  : list (N * (string * value)) :=
  match l with
  | [] => [(n, e)]
  | (m, e') :: tl =>
      if (n <? m)%N then (n, e) :: l else (m, e') :: insert_index n e tl
  end.

Fixpoint index_entries (o : obj) : list (N * (string * value)) :=
  match o with
  | [] => []
  | (k, v) :: tl =>
      match array_index k with
      | Some n => insert_index n (k, v) (index_entries tl)
      | None => index_entries tl
      end
  end.

(** The own properties of a record in the order the language enumerates
    them: array indices first, ascending, then the other keys as created. *)
Definition ownKeys (o : obj) : obj :=
  (map snd (index_entries o)
   ++ filter (fun kv => match array_index (fst kv) with None => true | _ => false end) o)%list.

Fixpoint indexed (i : nat) (l : list value) : obj :=
  match l with
  | [] => []
  | x :: tl => (string_of_Z (Z.of_nat i), x) :: indexed (S i) tl
  end.

(** What a spread copies from a value: the own enumerable properties of a
    record, the elements of an array and the characters of a string under
    their indices, nothing from another value. *)
Definition enumerable (v : value) : obj :=
  match v with
  | VObj o => ownKeys o
  | VArr l => indexed 0 l
  | VStr s => indexed 0 (chars s)
  | _ => []
  end.

(** A property of an object literal or a spread is defined, not assigned:
    [__proto__] is a key like any other here. *)
Definition define (o : obj) (k : string) (v : value) : obj :=
  if has_own k o then replace k v o else (o ++ [(k, v)])%list.

(** [{...target, ...src}]. *)
Definition spread (target : obj) (src : value) : obj :=
  fold_left (fun t kv => define t (fst kv) (snd kv)) (enumerable src) target.

(** [base ? { ...base, ...desc, properties: desc.properties } : desc],
    line 277. *)
Definition merged (base desc : value) : value :=
  if truthy base then
    VObj (define (spread (spread [] base) desc) "properties" (get desc "properties"))
  else desc.

Definition ex_base : obj :=
  [("displayName", VStr "HTTP Request"); ("name", VStr "httpRequest");
   ("group", VStr "output"); ("properties", VArr [ex_mode])].

Definition ex_version : obj :=
  [("version", VNum 2); ("group", VStr "input"); ("2", VStr "two"); ("properties", VArr [ex_timeout])].

(** *** Vocabulary of the revised statements *)

(** No record anywhere in the value has a property [toString] of its own. *)
Fixpoint no_own_toString (v : value) : bool :=
  match v with
  | VArr l => forallb no_own_toString l
  | VObj o =>
      negb (has_own "toString" o) && forallb (fun kv => no_own_toString (snd kv)) o
  | _ => true
  end.

(** [merged.displayName || merged.name], the argument of [safeName] in
    line 282. *)
Definition displayed (merged : value) : value :=
  if truthy (get merged "displayName") then get merged "displayName"
  else get merged "name".

Definition ex_no_modes : value :=
  VObj [("name", VStr "channel"); ("type", VStr "resourceLocator"); ("modes", VArr [])].

Definition ex_choice_array : value := VArr [VObj [("options", VArr [VStr "a"])]; VNum 7].

Definition ex_foo : value := VObj [("name", VStr "foo"); ("displayName", VStr "Foo")].

Definition ex_foo_v1 : value := VObj [("name", VStr "foo"); ("displayName", VStr "Foo v1")].

(** ** Facts about the runtime *)

Section ValueInduction.

Variable P : value -> Prop.
Hypothesis Hundef : P VUndef.
Hypothesis Hnull : P VNull.
Hypothesis Hbool : forall b, P (VBool b).
Hypothesis Hnum : forall n, P (VNum n).
Hypothesis Hstr : forall s, P (VStr s).
Hypothesis Harr : forall l, (forall x, In x l -> P x) -> P (VArr l).
Hypothesis Hobj : forall o, (forall k x, In (k, x) o -> P x) -> P (VObj o).

Fixpoint value_ind (v : value) : P v :=
  match v with
  | VUndef => Hundef
  | VNull => Hnull
  | VBool b => Hbool b
  | VNum n => Hnum n
  | VStr s => Hstr s
  | VArr l =>
      Harr l
        ((fix elems (l : list value) : forall x, In x l -> P x :=
            match l with
            | [] => fun _ H => match H with end
            | y :: tl => fun x H =>
                match H with
                | or_introl e => eq_ind y P (value_ind y) x e
                | or_intror i => elems tl x i
                end
            end) l)
  | VObj o =>
      Hobj o
        ((fix fields (o : obj) : forall k x, In (k, x) o -> P x :=
            match o with
            | [] => fun _ _ H => match H with end
            | (k', y) :: tl => fun k x H =>
                match H with
                | or_introl e => eq_ind y P (value_ind y) x (f_equal snd e)
                | or_intror i => fields tl k x i
                end
            end) o)
  end.

End ValueInduction.

Section ObjectFacts.

Lemma has_own_false_keys k o : has_own k o = false <-> ~ In k (keys o).
Proof.
  unfold has_own, keys. induction o as [|[k' v'] tl IH]; simpl.
  - tauto.
  - destruct (String.eqb_spec k' k) as [->|Hne].
    + split; [discriminate | intros H; exfalso; apply H; now left].
    + rewrite IH. split; [intros H [E|I]; [now apply Hne | now apply H] | tauto].
Qed.

Lemma lookup_replace k v o k' :
  lookup k' (replace k v o) =
    if (k =? k') && has_own k o then Some v else lookup k' o.
Proof.
  unfold has_own. induction o as [|[e v'] tl IH]; simpl.
  - now rewrite andb_false_r.
  - destruct (String.eqb_spec e k) as [->|Hne]; simpl.
    + rewrite andb_true_r. now destruct (String.eqb_spec k k').
    + rewrite IH. destruct (String.eqb_spec e k') as [->|Hne'].
      * destruct (String.eqb_spec k k') as [E|_]; [now elim Hne | reflexivity].
      * reflexivity.
Qed.

Lemma lookup_app k (o1 o2 : obj) :
  lookup k (o1 ++ o2)%list =
    match lookup k o1 with Some v => Some v | None => lookup k o2 end.
Proof.
  induction o1 as [|[e v] tl IH]; simpl; [reflexivity|].
  now destruct (e =? k).
Qed.

(** What [o[k] = v] does to the own properties. *)
Lemma lookup_set o k v k' :
  lookup k' (set o k v) =
    if negb (k =? "__proto__") && (k =? k') then Some v else lookup k' o.
Proof.
  unfold set. destruct (k =? "__proto__"); simpl; [reflexivity|].
  destruct (has_own k o) eqn:Hk.
  - now rewrite lookup_replace, Hk, andb_true_r.
  - rewrite lookup_app. simpl.
    destruct (String.eqb_spec k k') as [<-|Hne].
    + unfold has_own in Hk. now destruct (lookup k o).
    + now destruct (lookup k' o).
Qed.

Lemma lookup_set_if c o k v k' :
  lookup k' (set_if c o k v) =
    if c && negb (k =? "__proto__") && (k =? k') then Some v else lookup k' o.
Proof. destruct c; simpl; [apply lookup_set | reflexivity]. Qed.

Lemma keys_replace k v o : keys (replace k v o) = keys o.
Proof.
  unfold keys. induction o as [|[e v'] tl IH]; simpl; [reflexivity|].
  destruct (e =? k); simpl; [reflexivity | now rewrite IH].
Qed.

(** An object the generator builds never holds a key twice. *)
Lemma NoDup_set o k v : NoDup (keys o) -> NoDup (keys (set o k v)).
Proof.
  intros H. unfold set. destruct (k =? "__proto__"); [assumption|].
  destruct (has_own k o) eqn:Hk.
  - now rewrite keys_replace.
  - unfold keys. rewrite map_app. simpl.
    apply has_own_false_keys in Hk.
    apply NoDup_app; [assumption | repeat constructor; intros [] | ].
    intros x Hx [<-|[]]. now apply Hk.
Qed.

Lemma NoDup_set_if c o k v : NoDup (keys o) -> NoDup (keys (set_if c o k v)).
Proof. destruct c; simpl; [apply NoDup_set | trivial]. Qed.

End ObjectFacts.

Lemma bind_normal {A B} (c : completion A) (k : A -> completion B) b :
  bind c k = Normal b -> exists a, c = Normal a /\ k a = Normal b.
Proof. destruct c; simpl; try discriminate. intros H. now exists a. Qed.

Lemma bind_terminates {A B} (c : completion A) (k : A -> completion B) :
  c <> OutOfFuel -> (forall a, k a <> OutOfFuel) -> bind c k <> OutOfFuel.
Proof. destruct c; simpl; auto. discriminate. Qed.

Section CompletionFacts.

Context {A B : Type}.

Lemma mapM_pure (f : A -> completion B) (g : A -> B) l :
  (forall x, In x l -> f x = Normal (g x)) -> mapM f l = Normal (map g l).
Proof.
  induction l as [|x tl IH]; simpl; intros H; [reflexivity|].
  rewrite (H x), IH by auto. reflexivity.
Qed.

Lemma mapM_total (f : A -> completion B) l :
  (forall x, In x l -> exists y, f x = Normal y) -> exists ys, mapM f l = Normal ys.
Proof.
  induction l as [|x tl IH]; simpl; intros H; [now exists []|].
  destruct (H x) as [y Hy]; [auto|]. destruct IH as [ys Hys]; [auto|].
  rewrite Hy, Hys. simpl. now exists (y :: ys).
Qed.

Lemma mapM_terminates (f : A -> completion B) l :
  (forall x, In x l -> f x <> OutOfFuel) -> mapM f l <> OutOfFuel.
Proof.
  induction l as [|x tl IH]; simpl; intros H; [discriminate|].
  specialize (H x (or_introl eq_refl)) as Hx.
  destruct (f x); simpl; [|discriminate|congruence].
  assert (Htl : mapM f tl <> OutOfFuel) by auto.
  destruct (mapM f tl); simpl; congruence.
Qed.

Lemma filterM_pure (f : A -> completion bool) (g : A -> bool) l :
  (forall x, In x l -> f x = Normal (g x)) -> filterM f l = Normal (filter g l).
Proof.
  induction l as [|x tl IH]; simpl; intros H; [reflexivity|].
  rewrite (H x), IH by auto. reflexivity.
Qed.

(** A filter whose callback, where it answers, answers as [g] does. *)
Lemma filterM_normal (f : A -> completion bool) (g : A -> bool) l r :
  (forall x b, f x = Normal b -> b = g x) ->
  filterM f l = Normal r -> r = filter g l.
Proof.
  intros Hf. revert r. induction l as [|x tl IH]; simpl; intros r H.
  - now inversion H.
  - apply bind_normal in H as (b & Hb & H).
    apply bind_normal in H as (r' & Hr' & H).
    inversion H; subst. rewrite <- (Hf x b Hb), <- (IH r' Hr'). reflexivity.
Qed.

Lemma filterM_terminates (f : A -> completion bool) l :
  (forall x, f x <> OutOfFuel) -> filterM f l <> OutOfFuel.
Proof.
  intros H. induction l as [|x tl IH]; simpl; [discriminate|].
  specialize (H x). destruct (f x); simpl; [|discriminate|congruence].
  destruct (filterM f tl); simpl; congruence.
Qed.

Lemma for_of_ext (f g : B -> A -> completion B) l st :
  (forall x, In x l -> forall s, f s x = g s x) -> for_of l f st = for_of l g st.
Proof.
  revert st. induction l as [|x tl IH]; simpl; intros st H; [reflexivity|].
  rewrite (H x) by auto. destruct (g st x); simpl; auto.
Qed.

Lemma for_of_terminates (f : B -> A -> completion B) l st :
  (forall x, In x l -> forall s, f s x <> OutOfFuel) -> for_of l f st <> OutOfFuel.
Proof.
  revert st. induction l as [|x tl IH]; simpl; intros st H; [discriminate|].
  specialize (H x (or_introl eq_refl) st) as Hx.
  destruct (f st x); simpl; [apply IH; auto | discriminate | congruence].
Qed.

Lemma for_of_total (f : B -> A -> completion B) l st :
  (forall x, In x l -> forall s, exists s', f s x = Normal s') ->
  exists s', for_of l f st = Normal s'.
Proof.
  revert st. induction l as [|x tl IH]; simpl; intros st H; [now exists st|].
  destruct (H x (or_introl eq_refl) st) as [s' Hs']. rewrite Hs'. simpl.
  apply IH. auto.
Qed.

End CompletionFacts.

Section DepthFacts.

Lemma depth_elem x l : In x l -> depth x < depth (VArr l).
Proof.
  simpl. induction l as [|y tl IH]; simpl; [tauto|].
  intros [->|H]; [lia | specialize (IH H); lia].
Qed.

Lemma depth_field k x o : In (k, x) o -> depth x < depth (VObj o).
Proof.
  simpl. induction o as [|[k' y] tl IH]; simpl; [tauto|].
  intros [E|H]; [inversion E; subst; lia | specialize (IH H); lia].
Qed.

Lemma lookup_In k o x : lookup k o = Some x -> In (k, x) o.
Proof.
  induction o as [|[k' y] tl IH]; simpl; [discriminate|].
  destruct (String.eqb_spec k' k) as [->|_]; [|auto].
  intros E; inversion E; now left.
Qed.

(** What a property read gives is [undefined] or a part of the value. *)
Lemma depth_get v k : get v k = VUndef \/ depth (get v k) < depth v.
Proof.
  destruct v; simpl; auto. unfold get_own.
  destruct (lookup k props) eqn:E; [right | now left].
  apply lookup_In in E. now apply depth_field in E.
Qed.

Lemma depth_get_array v k l : get v k = VArr l -> forall x, In x l -> depth x + 2 <= depth v.
Proof.
  intros E x Hx. destruct (depth_get v k) as [H|H]; [congruence|].
  rewrite E in H. apply depth_elem in Hx. lia.
Qed.

End DepthFacts.

Section Fuel.

Lemma add_sub_ext rec1 rec2 props sub :
  rec1 sub = rec2 sub -> add_sub rec1 props sub = add_sub rec2 props sub.
Proof. unfold add_sub. now intros ->. Qed.

Lemma add_group_ext rec1 rec2 prop props group :
  (forall sub, depth sub + 2 <= depth group -> rec1 sub = rec2 sub) ->
  add_group rec1 prop props group = add_group rec2 prop props group.
Proof.
  intros H. unfold add_group.
  destruct (negb (truthy group) || negb (truthy (get group "name"))); [reflexivity|].
  destruct (get group "values") eqn:E; try reflexivity.
  rewrite (for_of_ext (add_sub rec1) (add_sub rec2)); [reflexivity|].
  intros x Hx s. apply add_sub_ext, H. eapply depth_get_array; eauto.
Qed.

(** The [switch] calls the converter on strictly smaller values only. *)
Lemma convert_ext rec1 rec2 prop s :
  (forall sub, depth sub + 2 <= depth prop -> rec1 sub = rec2 sub) ->
  convert rec1 prop s = convert rec2 prop s.
Proof.
  intros H. unfold convert. destruct (arm_of (get prop "type")); try reflexivity.
  - destruct (get prop "options") eqn:E; try reflexivity.
    rewrite (for_of_ext (add_sub rec1) (add_sub rec2)); [reflexivity|].
    intros x Hx st. apply add_sub_ext, H. eapply depth_get_array; eauto.
  - destruct (get prop "options") eqn:E; try reflexivity.
    rewrite (for_of_ext (add_group rec1 prop) (add_group rec2 prop)); [reflexivity|].
    intros x Hx st. apply add_group_ext. intros sub Hsub. apply H.
    pose proof (depth_get_array _ _ _ E x Hx). lia.
Qed.

Lemma propToSchema_fuel_step n prop :
  depth prop < n -> propToSchema_fuel (S n) prop = propToSchema_fuel n prop.
Proof.
  revert prop. induction n as [|n IH]; intros prop Hd; [lia|].
  change (propToSchema_fuel (S (S n)) prop)
    with (if no_contribution prop then Normal VNull
          else let* s := convert (propToSchema_fuel (S n)) prop (common prop) in
               Normal (VObj s)).
  change (propToSchema_fuel (S n) prop)
    with (if no_contribution prop then Normal VNull
          else let* s := convert (propToSchema_fuel n) prop (common prop) in
               Normal (VObj s)).
  rewrite (convert_ext (propToSchema_fuel (S n)) (propToSchema_fuel n)); [reflexivity|].
  intros sub Hsub. apply IH. lia.
Qed.

(** More fuel than the depth of the definition changes nothing. *)
Lemma propToSchema_enough_fuel n prop :
  depth prop < n -> propToSchema_fuel n prop = propToSchema prop.
Proof.
  unfold propToSchema. intros H.
  replace n with (S (depth prop) + (n - S (depth prop))) by lia.
  induction (n - S (depth prop)) as [|k IH]; [now rewrite Nat.add_0_r|].
  rewrite Nat.add_succ_r, propToSchema_fuel_step by lia. exact IH.
Qed.

(** The equation of [propToSchema], as the source has it. *)
Lemma propToSchema_eq prop :
  propToSchema prop =
    if no_contribution prop then Normal VNull
    else let* s := convert propToSchema prop (common prop) in Normal (VObj s).
Proof.
  unfold propToSchema at 1.
  change (propToSchema_fuel (S (depth prop)) prop)
    with (if no_contribution prop then Normal VNull
          else let* s := convert (propToSchema_fuel (depth prop)) prop (common prop) in
               Normal (VObj s)).
  rewrite (convert_ext (propToSchema_fuel (depth prop)) propToSchema); [reflexivity|].
  intros sub Hsub. apply propToSchema_enough_fuel. lia.
Qed.

Lemma depth_induction (P : value -> Prop) :
  (forall v, (forall w, depth w < depth v -> P w) -> P v) -> forall v, P v.
Proof.
  intros H v. remember (depth v) as n eqn:E.
  assert (G : forall m w, depth w < m -> P w).
  { induction m as [|m IH]; intros w Hw; [lia|].
    apply H. intros u Hu. apply IH. lia. }
  apply (G (S n)). lia.
Qed.

End Fuel.

Section PropertyFacts.

Lemma get_own_set o k v k' :
  get_own (set o k v) k' =
    if negb (k =? "__proto__") && (k =? k') then v else get_own o k'.
Proof.
  unfold get_own. rewrite lookup_set.
  now destruct (negb (k =? "__proto__") && (k =? k')).
Qed.

Lemma has_own_set o k v k' :
  has_own k' (set o k v) =
    (negb (k =? "__proto__") && (k =? k')) || has_own k' o.
Proof.
  unfold has_own. rewrite lookup_set.
  now destruct (negb (k =? "__proto__") && (k =? k')).
Qed.

Lemma get_own_set_if c o k v k' :
  get_own (set_if c o k v) k' =
    if c && negb (k =? "__proto__") && (k =? k') then v else get_own o k'.
Proof. destruct c; simpl; [apply get_own_set | reflexivity]. Qed.

Lemma has_own_set_if c o k v k' :
  has_own k' (set_if c o k v) =
    (c && negb (k =? "__proto__") && (k =? k')) || has_own k' o.
Proof. destruct c; simpl; [apply has_own_set | reflexivity]. Qed.

Lemma common_fresh prop k :
  ~ In k common_keys -> has_own k (common prop) = false.
Proof.
  intros H. unfold common. rewrite !has_own_set_if. simpl.
  repeat match goal with
         | |- context [?a =? k] =>
             destruct (String.eqb_spec a k) as [<-|_];
             [exfalso; apply H; unfold common_keys; simpl; tauto|]
         end.
  now rewrite !andb_false_r.
Qed.

Lemma common_NoDup prop : NoDup (keys (common prop)).
Proof. unfold common. repeat apply NoDup_set_if. constructor. Qed.

Lemma arm_of_default tag :
  (forall t, In t (map fst arms) -> tag <> VStr t) -> arm_of tag = ADefault.
Proof.
  intros H. destruct tag; try reflexivity. unfold arm_of.
  assert (G : forall l, (forall t, In t (map fst l) -> s <> t) -> select s l = ADefault).
  { induction l as [|[label a] tl IH]; simpl; intros Hl; [reflexivity|].
    destruct (String.eqb_spec s label) as [E|_]; [now elim (Hl label); auto|].
    apply IH. auto. }
  apply G. intros t Ht E. apply (H t Ht). now subst.
Qed.

(** An arm other than [default] is entered through one of its labels. *)
Lemma arm_of_label tag a :
  arm_of tag = a -> a <> ADefault -> exists t, tag = VStr t /\ In (t, a) arms.
Proof.
  destruct tag; unfold arm_of; try congruence. intros H Ha. exists s.
  split; [reflexivity|]. revert H. generalize arms. induction l as [|[label b] tl IH]; simpl; [congruence|].
  destruct (String.eqb_spec s label) as [->|_]; [intros ->; now left | auto].
Qed.

Lemma no_contribution_iff prop :
  no_contribution prop = true <-> absent prop \/ lacks_name prop \/ tagged "notice" prop.
Proof.
  unfold no_contribution, absent, lacks_name, tagged, is_string.
  rewrite !orb_true_iff, !negb_true_iff. split.
  - intros [[H|H]|H]; [| now auto |].
    + right; left. destruct prop; simpl in *; try reflexivity. discriminate.
    + right; right. destruct (get prop "type"); try discriminate.
      apply String.eqb_eq in H. now subst.
  - intros [[->| ->]|[H|H]]; simpl; auto. right. now rewrite H.
Qed.

Lemma named_contributes prop :
  truthy (get prop "name") = true -> ~ tagged "notice" prop -> no_contribution prop = false.
Proof.
  intros Hn Ht. destruct (no_contribution prop) eqn:E; [|reflexivity].
  apply no_contribution_iff in E as [[->| ->]|[H|H]]; try discriminate.
  - unfold lacks_name in H. congruence.
  - contradiction.
Qed.

Lemma tagged_arm t prop : tagged t prop -> arm_of (get prop "type") = select t arms.
Proof. unfold tagged. now intros ->. Qed.

End PropertyFacts.

Create Rewrite HintDb obj.
#[local] Hint Rewrite get_own_set has_own_set get_own_set_if has_own_set_if : obj.
#[local] Hint Rewrite andb_false_r andb_true_r orb_false_r orb_false_l : obj.

(** Reads of literal keys from an object built by writes of literal keys. *)
Ltac obj_simpl :=
  repeat (progress (autorewrite with obj; simpl;
                    rewrite ?common_fresh by (vm_compute; intuition discriminate))).

(** Takes a hypothesis [c = Normal s] apart, bind by bind. *)
Ltac normal_inv :=
  repeat match goal with
         | H : bind _ _ = Normal _ |- _ =>
             let a := fresh "a" in
             let Ha := fresh "Ha" in
             apply bind_normal in H as (a & Ha & H)
         | H : Normal _ = Normal _ |- _ => inversion H; subst; clear H
         | H : TypeError = Normal _ |- _ => discriminate H
         end.

Section Conversions.

Lemma to_string_array l :
  to_string (VArr l) = let* ss := mapM elem_string l in Normal (join "," ss).
Proof.
  simpl. f_equal. induction l as [|x tl IH]; simpl; [reflexivity|].
  now rewrite IH.
Qed.

Lemma to_string_terminates v : to_string v <> OutOfFuel.
Proof.
  induction v as [| |b|n|s|l IH|o IH] using value_ind;
    try (simpl; discriminate).
  - destruct b; discriminate.
  - rewrite to_string_array. apply bind_terminates; [|discriminate].
    apply mapM_terminates. intros x Hx.
    destruct x; simpl; try discriminate; apply (IH _ Hx).
  - simpl. destruct (has_own "toString" o); discriminate.
Qed.

Lemma well_formed_elem l x : well_formed (VArr l) = true -> In x l -> well_formed x = true.
Proof. simpl. rewrite forallb_forall. auto. Qed.

Lemma well_formed_get v k : well_formed v = true -> well_formed (get v k) = true.
Proof.
  destruct v; simpl; try reflexivity.
  rewrite !andb_true_iff, forallb_forall. intros [[[_ H] _] _].
  unfold get_own. destruct (lookup k props) eqn:E; [|reflexivity].
  apply lookup_In in E. apply (H _ E).
Qed.

Lemma well_formed_get_elem v k l x :
  well_formed v = true -> get v k = VArr l -> In x l -> well_formed x = true.
Proof.
  intros H E Hx. apply (well_formed_elem l); [|assumption].
  rewrite <- E. now apply well_formed_get.
Qed.

(** Data converts to a string. *)
Lemma to_string_total v : well_formed v = true -> exists s, to_string v = Normal s.
Proof.
  induction v as [| |b|n|s|l IH|o IH] using value_ind; intros Hwf;
    try (simpl; eauto; fail).
  - destruct b; simpl; eauto.
  - rewrite to_string_array.
    destruct (mapM_total elem_string l) as [ss Hss].
    + intros x Hx. pose proof (well_formed_elem _ _ Hwf Hx) as Hw.
      destruct x; simpl; eauto; apply (IH _ Hx Hw).
    + rewrite Hss. simpl. eauto.
  - simpl in *. rewrite !andb_true_iff, negb_true_iff in Hwf.
    destruct Hwf as [[[-> _] _] _]. eauto.
Qed.

Lemma value_in_terminates v : value_in v <> OutOfFuel.
Proof. destruct v; discriminate. Qed.

Lemma valid_option_terminates o : valid_option o <> OutOfFuel.
Proof.
  unfold valid_option. destruct (truthy o); [|discriminate].
  apply bind_terminates; [apply value_in_terminates | discriminate].
Qed.

Lemma valid_multi_option_terminates o : valid_multi_option o <> OutOfFuel.
Proof.
  unfold valid_multi_option. destruct (truthy o); [|discriminate].
  apply value_in_terminates.
Qed.

Lemma enum_name_terminates o : enum_name o <> OutOfFuel.
Proof.
  unfold enum_name. destruct (truthy (get o "name")); [discriminate|].
  apply bind_terminates; [apply to_string_terminates | discriminate].
Qed.

Lemma read_terminates v k : read v k <> OutOfFuel.
Proof. destruct v; discriminate. Qed.

Lemma mode_record_terminates m : mode_record m <> OutOfFuel.
Proof.
  unfold mode_record.
  repeat (apply bind_terminates; [apply read_terminates | intros ?]).
  discriminate.
Qed.

(** Where the filters answer, they answer as the vocabulary says. *)
Lemma valid_option_spec o b : valid_option o = Normal b -> b = declares_value o.
Proof.
  unfold valid_option, declares_value.
  destruct o; simpl; try discriminate; try (now inversion 1).
  - destruct b0; simpl; [discriminate | now inversion 1].
  - destruct (negb (n =? 0)%Z); simpl; [discriminate | now inversion 1].
  - destruct (negb (s =? "")); simpl; [discriminate | now inversion 1].
Qed.

Lemma valid_multi_option_spec o b :
  valid_multi_option o = Normal b -> b = has_value_key o.
Proof.
  unfold valid_multi_option, has_value_key.
  destruct o; simpl; try discriminate; try (now inversion 1).
  - destruct b0; simpl; [discriminate | now inversion 1].
  - destruct (negb (n =? 0)%Z); simpl; [discriminate | now inversion 1].
  - destruct (negb (s =? "")); simpl; [discriminate | now inversion 1].
Qed.

Lemma valid_option_total o :
  negb (truthy o) || is_object o = true -> valid_option o = Normal (declares_value o).
Proof.
  unfold valid_option, declares_value. destruct o; simpl; try reflexivity; try discriminate.
  - destruct b; [discriminate | reflexivity].
  - destruct (n =? 0)%Z; [reflexivity | discriminate].
  - destruct (s =? ""); [reflexivity | discriminate].
Qed.

Lemma valid_multi_option_total o :
  negb (truthy o) || is_object o = true ->
  valid_multi_option o = Normal (has_value_key o).
Proof.
  unfold valid_multi_option, has_value_key.
  destruct o; simpl; try reflexivity; try discriminate.
  - destruct b; [discriminate | reflexivity].
  - destruct (n =? 0)%Z; [reflexivity | discriminate].
  - destruct (s =? ""); [reflexivity | discriminate].
Qed.

Lemma enum_name_total o : well_formed o = true -> exists n, enum_name o = Normal n.
Proof.
  intros H. unfold enum_name. destruct (truthy (get o "name")); [eauto|].
  destruct (to_string_total (get o "value")) as [s ->]; [now apply well_formed_get|].
  simpl. eauto.
Qed.

Lemma read_total m k : is_nullish m = false -> read m k = Normal (get m k).
Proof. destruct m; simpl; congruence. Qed.

Lemma mode_record_total m :
  is_nullish m = false ->
  mode_record m =
    Normal (VObj [("name", get m "name"); ("displayName", get m "displayName");
                  ("type", get m "type")]).
Proof. intros H. unfold mode_record. now rewrite !read_total. Qed.

End Conversions.

Section Totality.

Lemma well_formed_entries prop l :
  well_formed prop = true -> get prop "options" = VArr l ->
  forall o, In o l -> negb (truthy o) || is_object o = true.
Proof.
  destruct prop; simpl; try discriminate.
  rewrite !andb_true_iff. intros [[_ H] _] E. rewrite E in H.
  simpl in H. now rewrite forallb_forall in H.
Qed.

Lemma well_formed_modes prop l :
  well_formed prop = true -> get prop "modes" = VArr l ->
  forall m, In m l -> is_nullish m = false.
Proof.
  destruct prop; simpl; try discriminate.
  rewrite !andb_true_iff. intros [_ H] E. rewrite E in H.
  simpl in H. rewrite forallb_forall in H.
  intros m Hm. apply negb_true_iff. auto.
Qed.

Lemma add_sub_terminates rec props sub :
  rec sub <> OutOfFuel -> add_sub rec props sub <> OutOfFuel.
Proof.
  intros H. unfold add_sub.
  destruct (negb (truthy sub) || negb (truthy (get sub "name"))); [discriminate|].
  apply bind_terminates; [assumption|]. intros subS.
  destruct (truthy subS); [|discriminate].
  apply bind_terminates; [apply to_string_terminates | discriminate].
Qed.

Lemma add_group_terminates rec prop props group :
  (forall sub, depth sub + 2 <= depth group -> rec sub <> OutOfFuel) ->
  add_group rec prop props group <> OutOfFuel.
Proof.
  intros H. unfold add_group.
  destruct (negb (truthy group) || negb (truthy (get group "name"))); [discriminate|].
  apply bind_terminates.
  - destruct (get group "values") eqn:E; try discriminate.
    apply for_of_terminates. intros x Hx st. apply add_sub_terminates, H.
    eapply depth_get_array; eauto.
  - intros itemProps.
    apply bind_terminates; [apply to_string_terminates | discriminate].
Qed.

Lemma convert_terminates rec prop s :
  (forall sub, depth sub + 2 <= depth prop -> rec sub <> OutOfFuel) ->
  convert rec prop s <> OutOfFuel.
Proof.
  intros H. unfold convert.
  destruct (arm_of (get prop "type")); try discriminate.
  - destruct (get prop "options"); try discriminate.
    apply bind_terminates;
      [apply filterM_terminates, valid_option_terminates | intros vs].
    apply bind_terminates; [|discriminate].
    apply mapM_terminates. intros; apply enum_name_terminates.
  - destruct (get prop "options"); try discriminate.
    apply bind_terminates;
      [apply filterM_terminates, valid_multi_option_terminates | intros vs].
    apply bind_terminates; [|discriminate].
    apply mapM_terminates. intros; apply enum_name_terminates.
  - destruct (get prop "options") eqn:E; try discriminate.
    apply bind_terminates; [|discriminate].
    apply for_of_terminates. intros x Hx st. apply add_sub_terminates, H.
    eapply depth_get_array; eauto.
  - apply bind_terminates; [|discriminate].
    destruct (get prop "options") eqn:E; try discriminate.
    apply for_of_terminates. intros x Hx st. apply add_group_terminates.
    intros sub Hsub. apply H. pose proof (depth_get_array _ _ _ E x Hx). lia.
  - apply bind_terminates.
    + destruct (get prop "modes"); try discriminate.
      apply bind_terminates; [|discriminate].
      apply mapM_terminates. intros; apply read_terminates.
    + intros ms. destruct (get prop "modes"); try discriminate.
      apply bind_terminates; [|discriminate].
      apply mapM_terminates. intros; apply mode_record_terminates.
Qed.

(** The fuel of [propToSchema] never runs out: the conversion ends, with
    a result or with an exception. *)
Lemma propToSchema_terminates prop : propToSchema prop <> OutOfFuel.
Proof.
  induction prop as [prop IH] using depth_induction.
  rewrite propToSchema_eq. destruct (no_contribution prop); [discriminate|].
  apply bind_terminates; [|discriminate].
  apply convert_terminates. intros sub Hsub. apply IH. lia.
Qed.

(** What [propToSchema] returns is [null] or an object, as the guard says. *)
Lemma propToSchema_normal prop r :
  propToSchema prop = Normal r ->
  (no_contribution prop = true /\ r = VNull)
  \/ (no_contribution prop = false
      /\ exists s, r = VObj s /\ convert propToSchema prop (common prop) = Normal s).
Proof.
  rewrite propToSchema_eq. destruct (no_contribution prop).
  - intros E; inversion E. now left.
  - intros E. apply bind_normal in E as (s & Hs & E). inversion E. right. eauto.
Qed.

Lemma add_sub_total rec props sub :
  well_formed sub = true -> (exists r, rec sub = Normal r) ->
  exists props', add_sub rec props sub = Normal props'.
Proof.
  intros Hwf [r Hr]. unfold add_sub.
  destruct (negb (truthy sub) || negb (truthy (get sub "name"))); [eauto|].
  rewrite Hr. simpl. destruct (truthy r); [|eauto].
  unfold to_property_key.
  destruct (to_string_total (get sub "name")) as [k ->];
    [now apply well_formed_get | simpl; eauto].
Qed.

Lemma add_group_total rec prop props group :
  well_formed group = true ->
  (forall sub, depth sub + 2 <= depth group -> well_formed sub = true ->
               exists r, rec sub = Normal r) ->
  exists props', add_group rec prop props group = Normal props'.
Proof.
  intros Hwf H. unfold add_group.
  destruct (negb (truthy group) || negb (truthy (get group "name"))); [eauto|].
  assert (Hitems : exists itemProps,
             match get group "values" with
             | VArr subs => for_of subs (add_sub rec) []
             | _ => Normal []
             end = Normal itemProps).
  { destruct (get group "values") eqn:E; eauto.
    apply for_of_total. intros x Hx st.
    assert (Hw : well_formed x = true) by (eapply well_formed_get_elem; eauto).
    apply add_sub_total; [assumption|]. apply H; [|assumption].
    eapply depth_get_array; eauto. }
  destruct Hitems as [itemProps ->]. simpl.
  unfold to_property_key.
  destruct (to_string_total (get group "name")) as [k ->];
    [now apply well_formed_get | simpl; eauto].
Qed.

Lemma convert_total rec prop s :
  well_formed prop = true ->
  (forall sub, depth sub + 2 <= depth prop -> well_formed sub = true ->
               exists r, rec sub = Normal r) ->
  exists s', convert rec prop s = Normal s'.
Proof.
  intros Hwf H. unfold convert.
  destruct (arm_of (get prop "type")); eauto.
  - destruct (get prop "options") eqn:E; eauto.
    rewrite (filterM_pure valid_option declares_value)
      by (intros o Ho; apply valid_option_total; eapply well_formed_entries; eauto).
    simpl.
    destruct (mapM_total enum_name (filter declares_value elems)) as [names ->];
      [|simpl; eauto].
    intros o Ho. apply filter_In in Ho as [Ho _].
    apply enum_name_total. eapply well_formed_get_elem; eauto.
  - destruct (get prop "options") eqn:E; eauto.
    rewrite (filterM_pure valid_multi_option has_value_key)
      by (intros o Ho; apply valid_multi_option_total; eapply well_formed_entries; eauto).
    simpl.
    destruct (mapM_total enum_name (filter has_value_key elems)) as [names ->];
      [|simpl; eauto].
    intros o Ho. apply filter_In in Ho as [Ho _].
    apply enum_name_total. eapply well_formed_get_elem; eauto.
  - destruct (get prop "options") eqn:E; eauto.
    destruct (for_of_total (add_sub rec) elems []) as [ps ->]; [|simpl; eauto].
    intros x Hx st.
    assert (Hw : well_formed x = true) by (eapply well_formed_get_elem; eauto).
    apply add_sub_total; [assumption|]. apply H; [|assumption].
    eapply depth_get_array; eauto.
  - destruct (get prop "options") eqn:E; simpl; eauto.
    destruct (for_of_total (add_group rec prop) elems []) as [ps ->]; [|simpl; eauto].
    intros x Hx st.
    assert (Hw : well_formed x = true) by (eapply well_formed_get_elem; eauto).
    apply add_group_total; [assumption|]. intros sub Hsub Hs. apply H; [|assumption].
    pose proof (depth_get_array _ _ _ E x Hx). lia.
  - destruct (get prop "modes") eqn:E; simpl; eauto.
    rewrite (mapM_pure (fun m => read m "name") (fun m => get m "name"))
      by (intros m Hm; apply read_total; eapply well_formed_modes; eauto).
    simpl.
    rewrite (mapM_pure mode_record
               (fun m => VObj [("name", get m "name");
                               ("displayName", get m "displayName");
                               ("type", get m "type")]))
      by (intros m Hm; apply mode_record_total; eapply well_formed_modes; eauto).
    simpl. eauto.
Qed.

(** On well-formed input the converter returns. *)
Lemma propToSchema_total prop :
  well_formed prop = true -> exists r, propToSchema prop = Normal r.
Proof.
  induction prop as [prop IH] using depth_induction. intros Hwf.
  rewrite propToSchema_eq. destruct (no_contribution prop); [eauto|].
  destruct (convert_total propToSchema prop (common prop) Hwf) as [s ->];
    [|simpl; eauto].
  intros sub Hsub Hs. apply IH; [lia | assumption].
Qed.

End Totality.

(** ** The claims *)

(** C9: the definition [{name: timeout, type: number, typeOptions:
    {minValue: 0, maxValue: 300}}] converts to the fragment
    [{type: number, minimum: 0, maximum: 300}] and to nothing more: the
    fragment has exactly these three keys. *)
Theorem timeout_scenario :
  propToSchema ex_timeout =
    Normal (VObj [("type", VStr "number"); ("minimum", VNum 0); ("maximum", VNum 300)]).
Proof. vm_compute. reflexivity. Qed.

(** C7: a definition with a non-empty name whose type tag is none of the
    tags the converter knows is converted without failure, to a fragment of
    type [string] that carries the tag, as it is, under [x-n8n-type]. *)
Theorem unknown_tag_degrades prop :
  truthy (get prop "name") = true ->
  (forall t, In t recognized -> get prop "type" <> VStr t) ->
  exists s,
    propToSchema prop = Normal (VObj s)
    /\ get_own s "type" = VStr "string"
    /\ get_own s "x-n8n-type" = get prop "type".
Proof.
  intros Hname Htag.
  assert (Hc : no_contribution prop = false).
  { apply named_contributes; [assumption|]. apply Htag. now left. }
  assert (Ha : arm_of (get prop "type") = ADefault).
  { apply arm_of_default. intros t Ht. apply Htag. now right. }
  rewrite propToSchema_eq, Hc. unfold convert. rewrite Ha. simpl.
  eexists. split; [reflexivity|]. now obj_simpl.
Qed.

Lemma unknown_tag_degrades_witness :
  exists s,
    propToSchema ex_legacy = Normal (VObj s)
    /\ get_own s "type" = VStr "string"
    /\ get_own s "x-n8n-type" = get ex_legacy "type".
Proof.
  apply (unknown_tag_degrades ex_legacy).
  - reflexivity.
  - intros t Ht. vm_compute in Ht.
    repeat (destruct Ht as [<-|Ht]; [discriminate|]). destruct Ht.
Defined.

Lemma propToSchema_fragment prop :
  no_contribution prop = false -> well_formed prop = true ->
  exists s, propToSchema prop = Normal (VObj s).
Proof.
  intros Hc Hwf. destruct (propToSchema_total prop Hwf) as [r Hr].
  destruct (propToSchema_normal prop r Hr) as [[E _]|[_ (s & -> & _)]]; [congruence|].
  eauto.
Qed.

(** C1, as stated, fails: a definition with a name and the tag [options]
    whose list of choices holds a bare string is neither absent, nor
    nameless, nor a notice, and converting it throws a [TypeError]
    (the [in] of line 42 applied to a string). *)
Lemma propToSchema_throws_on_bare_choice :
  ~ (absent ex_bare_choice \/ lacks_name ex_bare_choice \/ tagged "notice" ex_bare_choice)
  /\ propToSchema ex_bare_choice = TypeError.
Proof.
  split; [|vm_compute; reflexivity].
  unfold absent, lacks_name, tagged.
  intros [[H|H]|[H|H]]; vm_compute in H; discriminate.
Qed.

(** C1, amended: [propToSchema] returns no contribution ([null]) exactly
    when the input is absent, has no non-empty [name], or has the type
    [notice]; on every other input it returns a fragment or throws a
    [TypeError], and it returns a fragment when the input is well-formed. *)
Theorem propToSchema_contract prop :
  (propToSchema prop = Normal VNull
   <-> absent prop \/ lacks_name prop \/ tagged "notice" prop)
  /\ (~ (absent prop \/ lacks_name prop \/ tagged "notice" prop) ->
      (propToSchema prop = TypeError \/ exists s, propToSchema prop = Normal (VObj s))
      /\ (well_formed prop = true -> exists s, propToSchema prop = Normal (VObj s))).
Proof.
  rewrite <- no_contribution_iff. split; [split|].
  - intros H. apply propToSchema_normal in H as [[E _]|[_ (s & E & _)]];
      [assumption | discriminate].
  - intros H. now rewrite propToSchema_eq, H.
  - intros Hc. apply not_true_is_false in Hc. split.
    + destruct (propToSchema prop) as [r| |] eqn:E.
      * apply propToSchema_normal in E as [[E _]|[_ (s & -> & _)]]; [congruence|].
        right. eauto.
      * now left.
      * now elim (propToSchema_terminates prop).
    + now apply propToSchema_fragment.
Qed.

Lemma propToSchema_contract_witness :
  exists s, propToSchema ex_mode = Normal (VObj s).
Proof.
  destruct (propToSchema_contract ex_mode) as [_ H].
  apply H; [|reflexivity].
  unfold absent, lacks_name, tagged.
  intros [[E|E]|[E|E]]; vm_compute in E; discriminate.
Defined.

(** The rule of the [multiOptions] arm, lines 52-54: an entry is kept as
    soon as it has the key [value], defined or not. *)
Lemma multiOptions_enumeration prop options s :
  tagged "multiOptions" prop ->
  get prop "options" = VArr options ->
  propToSchema prop = Normal (VObj s) ->
  get (get_own s "items") "enum"
  = VArr (map (fun o => get o "value") (filter has_value_key options))
  /\ exists names,
      mapM enum_name (filter has_value_key options) = Normal names
      /\ get_own s "x-enumNames" = VArr names.
Proof.
  intros Htag Hopts Hs.
  apply propToSchema_normal in Hs as [[_ E]|[_ (s' & E & Hs)]]; [discriminate|].
  inversion E; subst s'; clear E.
  unfold convert in Hs. rewrite (tagged_arm _ _ Htag), Hopts in Hs.
  change (select "multiOptions" arms) with AMultiOptions in Hs. cbv iota in Hs.
  normal_inv.
  assert (a = filter has_value_key options) as ->
      by (eapply filterM_normal; [apply valid_multi_option_spec | eassumption]).
  split; [now obj_simpl|]. exists a0. split; [assumption | now obj_simpl].
Qed.

(** C2: the code departs from the claim.  Of the two choices [{name: A,
    value: a}] and [{name: B, value: undefined}], the second declares no
    defined value; under the type [options] it is left out, under the type
    [multiOptions] it is kept, in the enumeration of the items and in the
    list of names. *)
Theorem multiOptions_keeps_undefined_value :
  propToSchema ex_multi =
    Normal (VObj [("type", VStr "array");
                  ("items", VObj [("type", VStr "string");
                                  ("enum", VArr [VStr "a"; VUndef])]);
                  ("x-enumNames", VArr [VStr "A"; VStr "B"])])
  /\ propToSchema ex_single =
       Normal (VObj [("type", VStr "string");
                     ("enum", VArr [VStr "a"]);
                     ("x-enumNames", VArr [VStr "A"])])
  /\ get ex_multi "options" = get ex_single "options"
  /\ match get ex_multi "options" with
     | VArr choices => map declares_value choices = [true; false]
     | _ => False
     end.
Proof. repeat split; vm_compute; reflexivity. Qed.

Lemma truthy_enum_description o :
  truthy (enum_description o) = truthy (get o "description").
Proof.
  unfold enum_description. now destruct (truthy (get o "description")) eqn:E.
Qed.

Lemma some_description l :
  existsb truthy (map enum_description l) = true
  <-> exists o, In o l /\ truthy (get o "description") = true.
Proof.
  rewrite existsb_exists. split.
  - intros (d & Hd & Ht). apply in_map_iff in Hd as (o & <- & Ho).
    exists o. now rewrite <- truthy_enum_description.
  - intros (o & Ho & Ht). exists (enum_description o).
    split; [now apply in_map | now rewrite truthy_enum_description].
Qed.

(** C3: for a definition of type [options] whose [options] attribute is
    an array, the fragment is of type string, its [enum] and [x-enumNames]
    are built from the entries that declare a defined [value], and from
    those only, and [x-enumDescriptions] is there exactly when one of these
    entries has a non-empty description; it then lists the description of
    every such entry, empty where there is none.  Well-formed input does
    yield a fragment.  For the definition [mode] of the specification the
    fragment is the one given there. *)
Theorem options_enumeration prop options :
  truthy (get prop "name") = true ->
  tagged "options" prop ->
  get prop "options" = VArr options ->
  (well_formed prop = true -> exists s, propToSchema prop = Normal (VObj s))
  /\ (forall s, propToSchema prop = Normal (VObj s) ->
      let included := filter declares_value options in
      get_own s "type" = VStr "string"
      /\ get_own s "enum" = VArr (map (fun o => get o "value") included)
      /\ (exists names,
             mapM enum_name included = Normal names
             /\ get_own s "x-enumNames" = VArr names)
      /\ (has_own "x-enumDescriptions" s = true
          <-> exists o, In o included /\ truthy (get o "description") = true)
      /\ (has_own "x-enumDescriptions" s = true ->
          get_own s "x-enumDescriptions" = VArr (map enum_description included)))
  /\ propToSchema ex_mode =
       Normal (VObj [("type", VStr "string");
                     ("enum", VArr [VStr "fast"; VStr "slow"]);
                     ("x-enumNames", VArr [VStr "Fast"; VStr "Slow"]);
                     ("x-enumDescriptions", VArr [VStr ""; VStr "x"])]).
Proof.
  intros Hname Htag Hopts.
  assert (Hc : no_contribution prop = false).
  { apply named_contributes; [assumption|]. unfold tagged in *. congruence. }
  split; [|split; [|vm_compute; reflexivity]].
  - now apply propToSchema_fragment.
  - intros s Hs included.
    apply propToSchema_normal in Hs as [[E _]|[_ (s' & E & Hs)]]; [congruence|].
    inversion E; subst s'; clear E.
    unfold convert in Hs. rewrite (tagged_arm _ _ Htag), Hopts in Hs.
    change (select "options" arms) with AOptions in Hs. cbv iota in Hs.
    normal_inv.
    rename a into valid, a0 into names.
    assert (valid = included) as ->
        by (eapply filterM_normal; [apply valid_option_spec | eassumption]).
    repeat split.
    + now obj_simpl.
    + now obj_simpl.
    + exists names. split; [assumption | now obj_simpl].
    + obj_simpl. intros H. now apply some_description.
    + intros H. obj_simpl. now apply some_description.
    + obj_simpl. intros H. now rewrite H.
Qed.

Lemma options_enumeration_witness :
  exists s, propToSchema ex_single = Normal (VObj s)
            /\ get_own s "enum" = VArr [VStr "a"].
Proof.
  destruct (options_enumeration ex_single
              [VObj [("name", VStr "A"); ("value", VStr "a")];
               VObj [("name", VStr "B"); ("value", VUndef)]])
    as (Hex & Hs & _); try reflexivity.
  destruct (Hex eq_refl) as [s E]. exists s. split; [assumption|].
  now apply Hs in E as (_ & -> & _).
Defined.

(** Takes [convert rec prop s = Normal s'] apart, arm by arm. *)
Ltac convert_inv H :=
  unfold convert in H;
  repeat match type of H with
         | context [match get ?p ?k with _ => _ end] => destruct (get p k) eqn:?
         end;
  normal_inv.

Ltac NoDup_keys :=
  repeat first [apply common_NoDup | apply NoDup_set | apply NoDup_set_if].

Lemma not_tagged t prop a :
  arm_of (get prop "type") = a -> select t arms <> a -> ~ tagged t prop.
Proof. intros Ha Hne Ht. rewrite (tagged_arm _ _ Ht) in Ha. contradiction. Qed.

(** C6: a fragment holds no key twice, so at most one [type] keyword.
    When the source type is [json] it has no [type] and its [oneOf] lists
    a string, an object and an array branch; for every other source type
    it has no [oneOf] and its [type] is one of the type keywords of JSON
    Schema.  No fragment has both. *)
Theorem fragment_type_keyword prop s :
  propToSchema prop = Normal (VObj s) ->
  NoDup (keys s)
  /\ ((tagged "json" prop
       /\ has_own "type" s = false
       /\ exists b1 b2 b3,
           get_own s "oneOf" = VArr [b1; b2; b3]
           /\ get b1 "type" = VStr "string"
           /\ get b2 "type" = VStr "object"
           /\ get b3 "type" = VStr "array")
      \/ (~ tagged "json" prop
          /\ has_own "oneOf" s = false
          /\ exists t,
              In t primitive_types
              /\ has_own "type" s = true /\ get_own s "type" = VStr t)).
Proof.
  intros Hs.
  apply propToSchema_normal in Hs as [[_ E]|[_ (s' & E & Hs)]]; [discriminate|].
  inversion E; subst s'; clear E.
  unfold convert in Hs.
  destruct (arm_of (get prop "type")) eqn:Harm; convert_inv Hs;
    (split; [NoDup_keys|]);
    try (right; split; [eapply not_tagged; [eassumption | vm_compute; discriminate]|];
         split; [now obj_simpl|];
         eexists; split; [|split; [now obj_simpl | obj_simpl; reflexivity]];
         vm_compute; tauto).
  left. split; [|split].
  - apply arm_of_label in Harm as (t & Ht & Hin); [|discriminate].
    vm_compute in Hin.
    repeat (destruct Hin as [Hin|Hin]; [inversion Hin; subst; try discriminate; assumption|]).
    destruct Hin.
  - now obj_simpl.
  - do 3 eexists. obj_simpl. split; [reflexivity|]. now repeat split.
Qed.

Lemma fragment_type_keyword_witness :
  NoDup ["type"; "minimum"; "maximum"]
  /\ get_own [("type", VStr "number"); ("minimum", VNum 0); ("maximum", VNum 300)] "type"
     = VStr "number".
Proof.
  destruct (fragment_type_keyword ex_timeout
              [("type", VStr "number"); ("minimum", VNum 0); ("maximum", VNum 300)])
    as [Hnd H]; [vm_compute; reflexivity|].
  split; [exact Hnd | reflexivity].
Defined.

(** C8, as stated, fails: a definition of type [resourceLocator] whose
    [modes] is the empty list declares no mode, and the enumeration of
    its [mode] is empty, not [id], [url], [list]; it also has an
    [x-modes], empty. *)
Lemma resourceLocator_empty_modes :
  get ex_no_modes "modes" = VArr []
  /\ exists s,
      propToSchema ex_no_modes = Normal (VObj s)
      /\ get (get (get_own s "properties") "mode") "enum" = VArr []
      /\ get (get (get_own s "properties") "mode") "enum"
         <> VArr [VStr "id"; VStr "url"; VStr "list"]
      /\ get_own s "x-modes" = VArr [].
Proof.
  split; [reflexivity|]. eexists. split; [vm_compute; reflexivity|].
  repeat split; try (vm_compute; reflexivity). vm_compute. discriminate.
Qed.

(** C8, amended: a definition of type [resourceLocator] (with a name, and
    whose modes, if it lists any, are there) yields an object schema that
    requires exactly [mode] and [value], with the constant boolean
    discriminator [__rl], a string [value], and a [mode] with an
    enumeration.  When [modes] is a list, be it empty, the enumeration is
    the non-empty names of its entries, in order, and [x-modes] keeps the
    name, displayName and type of each entry; when [modes] is no list,
    the enumeration is [id], [url], [list] and there is no [x-modes]. *)
Theorem resourceLocator_fragment prop :
  truthy (get prop "name") = true ->
  tagged "resourceLocator" prop ->
  modes_ok (get prop "modes") = true ->
  exists s,
    propToSchema prop = Normal (VObj s)
    /\ get_own s "type" = VStr "object"
    /\ get_own s "required" = VArr [VStr "mode"; VStr "value"]
    /\ get (get_own s "properties") "__rl"
       = VObj [("type", VStr "boolean"); ("const", VBool true)]
    /\ get (get (get_own s "properties") "mode") "type" = VStr "string"
    /\ match get prop "modes" with
       | VArr modes =>
           get (get (get_own s "properties") "mode") "enum" = VArr (mode_names modes)
           /\ get_own s "x-modes" = VArr (map mode_metadata modes)
       | _ =>
           get (get (get_own s "properties") "mode") "enum"
           = VArr [VStr "id"; VStr "url"; VStr "list"]
           /\ has_own "x-modes" s = false
       end.
Proof.
  intros Hname Htag Hmodes.
  assert (Hc : no_contribution prop = false).
  { apply named_contributes; [assumption|]. unfold tagged in *. congruence. }
  rewrite propToSchema_eq, Hc. unfold convert. rewrite (tagged_arm _ _ Htag).
  change (select "resourceLocator" arms) with AResourceLocator. cbv iota.
  destruct (get prop "modes") eqn:E;
    try (simpl; eexists; split; [reflexivity|]; now obj_simpl).
  assert (Hm : forall m, In m elems -> is_nullish m = false).
  { simpl in Hmodes. rewrite forallb_forall in Hmodes.
    intros m Hin. apply negb_true_iff. auto. }
  rewrite (mapM_pure (fun m => read m "name") (fun m => get m "name"))
    by (intros m Hin; apply read_total; auto).
  rewrite (mapM_pure mode_record mode_metadata)
    by (intros m Hin; apply mode_record_total; auto).
  simpl. eexists. split; [reflexivity|]. now obj_simpl.
Qed.

Lemma resourceLocator_fragment_witness :
  exists s,
    propToSchema ex_locator = Normal (VObj s)
    /\ get (get (get_own s "properties") "mode") "enum" = VArr [VStr "list"; VStr "id"].
Proof.
  destruct (resourceLocator_fragment ex_locator) as (s & Hs & _ & _ & _ & _ & He & _);
    try reflexivity.
  exists s. split; [exact Hs | exact He].
Defined.

Lemma for_of_no_named_group rec prop groups st :
  forallb (fun g => negb (truthy g && truthy (get g "name"))) groups = true ->
  for_of groups (add_group rec prop) st = Normal st.
Proof.
  induction groups as [|g tl IH]; simpl; [reflexivity|].
  rewrite andb_true_iff, negb_true_iff. intros [Hg Htl].
  unfold add_group at 1.
  rewrite <- negb_andb, Hg. simpl. auto.
Qed.

(** C10: a definition of type [collection] whose [options] is no array
    yields an object schema without any [properties] key; a definition of
    type [fixedCollection] never yields a fragment without a [properties]
    object: its conversion gives a fragment with one or throws, it gives a
    fragment on well-formed input, and the [properties] object is empty
    when [options] is no array or has no named group. *)
Theorem collection_properties_key prop :
  truthy (get prop "name") = true ->
  (tagged "collection" prop -> isArray (get prop "options") = false ->
   exists s,
     propToSchema prop = Normal (VObj s)
     /\ get_own s "type" = VStr "object"
     /\ has_own "properties" s = false)
  /\ (tagged "fixedCollection" prop ->
      (propToSchema prop = TypeError
       \/ exists s ps,
           propToSchema prop = Normal (VObj s)
           /\ get_own s "type" = VStr "object"
           /\ has_own "properties" s = true
           /\ get_own s "properties" = VObj ps)
      /\ (well_formed prop = true -> propToSchema prop <> TypeError)
      /\ (no_named_group prop = true ->
          exists s,
            propToSchema prop = Normal (VObj s)
            /\ get_own s "properties" = VObj [])).
Proof.
  intros Hname. split; intros Htag.
  - intros Harr.
    assert (Hc : no_contribution prop = false).
    { apply named_contributes; [assumption|]. unfold tagged in *. congruence. }
    rewrite propToSchema_eq, Hc. unfold convert. rewrite (tagged_arm _ _ Htag).
    change (select "collection" arms) with ACollection. cbv iota.
    destruct (get prop "options"); try discriminate;
      simpl; eexists; (split; [reflexivity|]); now obj_simpl.
  - assert (Hc : no_contribution prop = false).
    { apply named_contributes; [assumption|]. unfold tagged in *. congruence. }
    split; [|split].
    + destruct (propToSchema prop) as [r| |] eqn:E.
      * right. apply propToSchema_normal in E as [[E _]|[_ (s & -> & Hs)]]; [congruence|].
        unfold convert in Hs. rewrite (tagged_arm _ _ Htag) in Hs.
        change (select "fixedCollection" arms) with AFixedCollection in Hs.
        cbv iota in Hs. normal_inv.
        do 2 eexists. split; [reflexivity|]. now obj_simpl.
      * now left.
      * now elim (propToSchema_terminates prop).
    + intros Hwf. destruct (propToSchema_fragment prop Hc Hwf) as [s ->]. discriminate.
    + intros Hg. rewrite propToSchema_eq, Hc. unfold convert.
      rewrite (tagged_arm _ _ Htag).
      change (select "fixedCollection" arms) with AFixedCollection. cbv iota.
      unfold no_named_group in Hg.
      destruct (get prop "options");
        try (simpl; eexists; split; [reflexivity | now obj_simpl]).
      rewrite for_of_no_named_group by assumption.
      simpl; eexists; split; [reflexivity | now obj_simpl].
Qed.

Lemma collection_properties_key_witness :
  (exists s, propToSchema ex_collection = Normal (VObj s)
             /\ get_own s "type" = VStr "object" /\ has_own "properties" s = false)
  /\ (exists s, propToSchema ex_fixed = Normal (VObj s)
                /\ get_own s "properties" = VObj []).
Proof.
  split.
  - destruct (collection_properties_key ex_collection) as [H _]; [reflexivity|].
    apply H; reflexivity.
  - destruct (collection_properties_key ex_fixed) as [_ H]; [reflexivity|].
    destruct H as (_ & _ & H); [reflexivity|]. apply H. reflexivity.
Defined.

Section Sanitizer.

Import Re.

Variables p q : ascii -> bool.

Lemma remove_all_chars s : all_chars (non p) (remove p s) = true.
Proof.
  induction s as [|c r IH]; simpl; [reflexivity|].
  destruct (p c) eqn:E; simpl; [assumption|]. unfold non at 1. now rewrite E.
Qed.

Lemma remove_id s : all_chars (non p) s = true -> remove p s = s.
Proof.
  induction s as [|c r IH]; simpl; [reflexivity|].
  unfold non at 1. rewrite andb_true_iff, negb_true_iff. intros [-> H].
  now rewrite IH.
Qed.

Lemma remove_keeps s : all_chars q s = true -> all_chars q (remove p s) = true.
Proof.
  induction s as [|c r IH]; simpl; [reflexivity|].
  rewrite andb_true_iff. intros [Hc H].
  destruct (p c); simpl; [auto | now rewrite Hc, IH].
Qed.

Lemma squeeze_keeps b s :
  q "_"%char = true -> all_chars q s = true -> all_chars q (squeeze p b s) = true.
Proof.
  intros Hu. revert b. induction s as [|c r IH]; simpl; intros b; [reflexivity|].
  rewrite andb_true_iff. intros [Hc H].
  destruct (p c); [destruct b|]; simpl; rewrite ?Hu, ?Hc, ?IH; auto.
Qed.

Lemma squeeze_all_chars b s :
  p "_"%char = false -> all_chars (non p) (squeeze p b s) = true.
Proof.
  intros Hu. revert b. induction s as [|c r IH]; simpl; intros b; [reflexivity|].
  destruct (p c) eqn:E; [destruct b|]; simpl; rewrite ?IH; auto.
  - unfold non. now rewrite Hu.
  - unfold non at 1. now rewrite E.
Qed.

Lemma squeeze_id b s : all_chars (non p) s = true -> squeeze p b s = s.
Proof.
  revert b. induction s as [|c r IH]; simpl; intros b; [reflexivity|].
  unfold non at 1. rewrite andb_true_iff, negb_true_iff. intros [-> H].
  now rewrite IH.
Qed.

Lemma drop_leading_starts s : starts p (drop_leading p s) = false.
Proof.
  induction s as [|c r IH]; simpl; [reflexivity|].
  destruct (p c) eqn:E; simpl; assumption.
Qed.

Lemma drop_leading_id s : starts p s = false -> drop_leading p s = s.
Proof. destruct s as [|c r]; simpl; [reflexivity | now intros ->]. Qed.

Lemma drop_leading_keeps s : all_chars q s = true -> all_chars q (drop_leading p s) = true.
Proof.
  induction s as [|c r IH]; simpl; [reflexivity|].
  rewrite andb_true_iff. intros [Hc H].
  destruct (p c); simpl; [auto | now rewrite Hc, H].
Qed.

Lemma drop_leading_no_run s : no_run q s = true -> no_run q (drop_leading p s) = true.
Proof.
  induction s as [|c r IH]; simpl; [reflexivity|].
  rewrite andb_true_iff. intros [Hc H].
  destruct (p c); simpl; [auto | now rewrite Hc, H].
Qed.

Lemma drop_trailing_cons c r :
  drop_trailing p (String c r) =
    match drop_trailing p r with
    | EmptyString => if p c then EmptyString else String c EmptyString
    | String c' r' => String c (String c' r')
    end.
Proof. simpl. now destruct (drop_trailing p r). Qed.

Lemma drop_trailing_ends s : ends p (drop_trailing p s) = false.
Proof.
  induction s as [|c r IH]; [reflexivity|].
  rewrite drop_trailing_cons. destruct (drop_trailing p r) as [|c' r'].
  - destruct (p c) eqn:E; simpl; [reflexivity | assumption].
  - exact IH.
Qed.

Lemma drop_trailing_id s : ends p s = false -> drop_trailing p s = s.
Proof.
  induction s as [|c r IH]; [reflexivity|].
  rewrite drop_trailing_cons. destruct r as [|c' r'].
  - simpl. now intros ->.
  - intros H. change (ends p (String c' r') = false) in H.
    now rewrite (IH H).
Qed.

Lemma drop_trailing_starts s :
  starts q s = false -> starts q (drop_trailing p s) = false.
Proof.
  destruct s as [|c r]; [reflexivity|].
  rewrite drop_trailing_cons. simpl. intros H.
  destruct (drop_trailing p r); [destruct (p c)|]; simpl; auto.
Qed.

Lemma drop_trailing_keeps s :
  all_chars q s = true -> all_chars q (drop_trailing p s) = true.
Proof.
  induction s as [|c r IH]; [reflexivity|].
  rewrite drop_trailing_cons. simpl. rewrite andb_true_iff. intros [Hc H].
  specialize (IH H). destruct (drop_trailing p r) as [|c' r'].
  - destruct (p c); simpl; [reflexivity | now rewrite Hc].
  - simpl in *. now rewrite Hc, IH.
Qed.

Lemma starts_drop_trailing r c' r' :
  drop_trailing p r = String c' r' -> starts q r = q c'.
Proof.
  destruct r as [|d r0]; [discriminate|].
  rewrite drop_trailing_cons.
  destruct (drop_trailing p r0); [destruct (p d)|]; intros E; inversion E; reflexivity.
Qed.

Lemma drop_trailing_no_run s :
  no_run q s = true -> no_run q (drop_trailing p s) = true.
Proof.
  induction s as [|c r IH]; [reflexivity|].
  rewrite drop_trailing_cons. simpl. rewrite andb_true_iff. intros [Hc H].
  specialize (IH H). destruct (drop_trailing p r) as [|c' r'] eqn:E.
  - destruct (p c); simpl; [reflexivity | now rewrite andb_false_r].
  - change (no_run q (String c (String c' r')))
      with (negb (q c && q c') && no_run q (String c' r')).
    rewrite IH, andb_true_r. now rewrite <- (starts_drop_trailing r c' r' E).
Qed.

Lemma all_chars_starts s : all_chars (non p) s = true -> starts p s = false.
Proof.
  destruct s as [|c r]; simpl; [reflexivity|].
  unfold non at 1. rewrite andb_true_iff, negb_true_iff. now intros [H _].
Qed.

Lemma all_chars_ends s : all_chars (non p) s = true -> ends p s = false.
Proof.
  induction s as [|c r IH]; simpl; [reflexivity|].
  unfold non at 1. rewrite andb_true_iff, negb_true_iff. intros [Hc H].
  destruct r; [assumption | auto].
Qed.

End Sanitizer.

Section SafeName.

Import Re.

Lemma underscore_char c : underscore c = true -> c = "_"%char.
Proof.
  unfold underscore, code. intros H. apply Nat.eqb_eq in H.
  rewrite <- (ascii_nat_embedding c), H. reflexivity.
Qed.

Lemma squeeze_underscore_no_run s :
  starts underscore (squeeze underscore true s) = false
  /\ no_run underscore (squeeze underscore true s) = true
  /\ no_run underscore (squeeze underscore false s) = true.
Proof.
  induction s as [|c r (IH1 & IH2 & IH3)]; simpl; [auto|].
  destruct (underscore c) eqn:E; simpl.
  - rewrite IH1, IH2. auto.
  - rewrite E, IH3. auto.
Qed.

Lemma squeeze_underscore_id b s :
  no_run underscore s = true -> (b = true -> starts underscore s = false) ->
  squeeze underscore b s = s.
Proof.
  revert b. induction s as [|c r IH]; simpl; intros b; [reflexivity|].
  rewrite andb_true_iff, negb_true_iff. intros [Hc Hr] Hb.
  destruct (underscore c) eqn:E.
  - destruct b; [now discriminate Hb|].
    rewrite (underscore_char c E). f_equal. apply IH; [assumption|].
    intros _. simpl in Hc. exact Hc.
  - f_equal. apply IH; [assumption | discriminate].
Qed.

Lemma sanitize_trim_free s :
  all_chars (non whitespace) s = true -> trim s = s.
Proof.
  intros H. unfold trim.
  rewrite drop_leading_id by (apply all_chars_starts; exact H).
  apply drop_trailing_id, all_chars_ends; exact H.
Qed.

(** What [safeName] computes from a string is a sanitised name. *)
Lemma sanitize_sanitized s : sanitized (sanitize s) = true.
Proof.
  unfold sanitize, replace_whitespace_runs, collapse_underscores, strip_underscores.
  set (s1 := remove forbidden s).
  set (s2 := squeeze whitespace false s1).
  set (s3 := squeeze underscore false s2).
  set (s4 := drop_trailing underscore (drop_leading underscore s3)).
  assert (F1 : all_chars (non forbidden) s1 = true) by apply remove_all_chars.
  assert (F2 : all_chars (non forbidden) s2 = true) by now apply squeeze_keeps.
  assert (W2 : all_chars (non whitespace) s2 = true) by now apply squeeze_all_chars.
  assert (F3 : all_chars (non forbidden) s3 = true) by now apply squeeze_keeps.
  assert (W3 : all_chars (non whitespace) s3 = true) by now apply squeeze_keeps.
  assert (R3 : no_run underscore s3 = true) by apply squeeze_underscore_no_run.
  assert (F4 : all_chars (non forbidden) s4 = true)
    by now apply drop_trailing_keeps, drop_leading_keeps.
  assert (W4 : all_chars (non whitespace) s4 = true)
    by now apply drop_trailing_keeps, drop_leading_keeps.
  assert (R4 : no_run underscore s4 = true)
    by now apply drop_trailing_no_run, drop_leading_no_run.
  assert (S4 : starts underscore s4 = false)
    by apply drop_trailing_starts, drop_leading_starts.
  assert (E4 : ends underscore s4 = false) by apply drop_trailing_ends.
  rewrite (sanitize_trim_free s4 W4). unfold sanitized.
  now rewrite F4, W4, R4, S4, E4.
Qed.

(** A sanitised name is left as it is. *)
Lemma sanitize_id s : sanitized s = true -> sanitize s = s.
Proof.
  unfold sanitized. rewrite !andb_true_iff, !negb_true_iff.
  intros [[[[F W] R] S] E].
  unfold sanitize, replace_whitespace_runs, collapse_underscores, strip_underscores.
  rewrite (remove_id forbidden s F), (squeeze_id whitespace false s W).
  rewrite (squeeze_underscore_id false s R) by discriminate.
  rewrite (drop_leading_id underscore s S), (drop_trailing_id underscore s E).
  now apply sanitize_trim_free.
Qed.

Lemma safeName_normal v r :
  safeName v = Normal r -> r <> "" /\ sanitized r = true.
Proof.
  unfold safeName. intros H. normal_inv.
  destruct (String.eqb_spec (sanitize a) "") as [_|Hne].
  - split; [discriminate | reflexivity].
  - split; [assumption | apply sanitize_sanitized].
Qed.

Lemma safeName_sanitized r :
  r <> "" -> sanitized r = true -> safeName (VStr r) = Normal r.
Proof.
  intros Hne Hs. unfold safeName. simpl.
  apply String.eqb_neq in Hne. rewrite Hne. simpl.
  now rewrite (sanitize_id r Hs), Hne.
Qed.

End SafeName.

(** C5, as stated, fails: a record with a property [toString] of its own
    has no string conversion, and [safeName] throws a [TypeError] on it. *)
Lemma safeName_throws_on_unprintable : safeName ex_unprintable = TypeError.
Proof. reflexivity. Qed.

Lemma no_own_toString_elem l x :
  no_own_toString (VArr l) = true -> In x l -> no_own_toString x = true.
Proof. simpl. rewrite forallb_forall. auto. Qed.

(** A value without a [toString] of its own anywhere converts to a string. *)
Lemma to_string_no_own_toString v :
  no_own_toString v = true -> exists s, to_string v = Normal s.
Proof.
  induction v as [| |b|n|s|l IH|o IH] using value_ind; intros Hv;
    try (simpl; eauto; fail).
  - destruct b; simpl; eauto.
  - rewrite to_string_array.
    destruct (mapM_total elem_string l) as [ss Hss].
    + intros x Hx. pose proof (no_own_toString_elem _ _ Hv Hx) as Hw.
      destruct x; simpl; eauto; apply (IH _ Hx Hw).
    + rewrite Hss. simpl. eauto.
  - simpl in *. rewrite andb_true_iff, negb_true_iff in Hv.
    destruct Hv as [-> _]. eauto.
Qed.

Lemma well_formed_no_own_toString v :
  well_formed v = true -> no_own_toString v = true.
Proof.
  induction v as [| |b|n|s|l IH|o IH] using value_ind; intros Hv; try reflexivity.
  - simpl in *. rewrite forallb_forall in *. auto.
  - simpl in *. rewrite !andb_true_iff in Hv. destruct Hv as [[[Ht Hf] _] _].
    rewrite Ht. simpl. rewrite forallb_forall in *.
    intros [k x] Hin. simpl. apply (IH k x Hin). apply (Hf (k, x) Hin).
Qed.

(** What [safeName] does, read off the conversion of its argument. *)
Lemma safeName_cases v :
  (exists s, to_string v = Normal s /\ exists r, safeName v = Normal r)
  \/ (to_string v = TypeError /\ safeName v = TypeError).
Proof.
  destruct (truthy v) eqn:Ht.
  - unfold safeName. rewrite Ht.
    pose proof (to_string_terminates v) as H.
    destruct (to_string v) as [s| |]; simpl; [left; eauto | now right | contradiction].
  - left.
    assert (Hs : exists s, to_string v = Normal s).
    { destruct v; simpl in *; eauto; try discriminate. destruct b; eauto. }
    destruct Hs as [s Hs]. exists s. split; [exact Hs|].
    unfold safeName. rewrite Ht. simpl. eauto.
Qed.

(** C5, amended: [safeName] returns a string exactly when its input
    converts to a string, and throws a [TypeError] exactly when it does
    not.  The inputs that convert include every absent value, boolean,
    number and string, and every record or array in which no record has a
    property [toString] of its own.  What [safeName] returns is never
    empty, is a sanitised name, and is returned unchanged when [safeName]
    is applied to it again. *)
Theorem safeName_total_idempotent v :
  ((exists r, safeName v = Normal r) <-> exists s, to_string v = Normal s)
  /\ (safeName v = TypeError <-> to_string v = TypeError)
  /\ (no_own_toString v = true -> exists r, safeName v = Normal r)
  /\ (well_formed v = true -> exists r, safeName v = Normal r)
  /\ (forall r, safeName v = Normal r ->
        r <> "" /\ sanitized r = true /\ safeName (VStr r) = Normal r).
Proof.
  assert (Hno : no_own_toString v = true -> exists r, safeName v = Normal r).
  { intros Hv. destruct (to_string_no_own_toString v Hv) as [s Hs].
    destruct (safeName_cases v) as [(_ & _ & H)|[E _]]; [exact H | congruence]. }
  split; [|split; [|split; [|split]]].
  - destruct (safeName_cases v) as [(s & Hs & r & Hr)|[Hs Hr]].
    + split; eauto.
    + split; intros [x Hx]; congruence.
  - destruct (safeName_cases v) as [(s & Hs & r & Hr)|[Hs Hr]].
    + split; congruence.
    + tauto.
  - exact Hno.
  - intros Hwf. apply Hno. now apply well_formed_no_own_toString.
  - intros r Hr. destruct (safeName_normal v r Hr) as [Hne Hs].
    repeat split; try assumption. now apply safeName_sanitized.
Qed.

Lemma safeName_total_idempotent_witness :
  (exists r, safeName (VStr " Send / Receive  e-mail_ ") = Normal r
             /\ r = "Send_Receive_e-mail"
             /\ safeName (VStr r) = Normal r)
  /\ (exists r, safeName ex_choice_array = Normal r)
  /\ to_string ex_unprintable = TypeError.
Proof.
  split; [|split].
  - destruct (safeName_total_idempotent (VStr " Send / Receive  e-mail_ "))
      as (_ & _ & H & _ & G).
    destruct (H eq_refl) as [r Hr]. exists r.
    split; [exact Hr|]. split; [|now apply G].
    vm_compute in Hr. now inversion Hr.
  - destruct (safeName_total_idempotent ex_choice_array) as (_ & _ & H & _).
    apply H. reflexivity.
  - destruct (safeName_total_idempotent ex_unprintable) as (_ & H & _).
    apply H. reflexivity.
Defined.

Section Assembler.

Lemma add_prop_lookup acc prop acc' k :
  add_prop acc prop = Normal acc' -> k <> "__proto__" ->
  lookup k acc' =
    if settles k prop then
      match propToSchema prop with Normal frag => Some frag | _ => None end
    else lookup k acc.
Proof.
  unfold add_prop, settles. intros H Hk.
  destruct (truthy prop); simpl in *; [|now inversion H].
  destruct (truthy (get prop "name")); simpl in *; [|now inversion H].
  apply bind_normal in H as (r & Hr & H). rewrite Hr.
  destruct (propToSchema_normal prop r Hr) as [[_ ->]|[_ (s & -> & _)]]; simpl in H.
  - inversion H. now rewrite andb_false_r.
  - apply bind_normal in H as (k0 & Hk0 & H). inversion H; subst acc'.
    rewrite Hk0, andb_true_r, lookup_set.
    destruct (String.eqb_spec k0 k) as [->|_]; [|now rewrite andb_false_r].
    apply String.eqb_neq in Hk. now rewrite Hk.
Qed.

Lemma add_prop_proto acc prop acc' :
  add_prop acc prop = Normal acc' -> lookup "__proto__" acc' = lookup "__proto__" acc.
Proof.
  unfold add_prop. intros H.
  destruct (negb (truthy prop) || negb (truthy (get prop "name"))); [now inversion H|].
  apply bind_normal in H as (r & Hr & H).
  destruct (negb (is_null r)); [|now inversion H].
  apply bind_normal in H as (k0 & Hk0 & H). inversion H; subst acc'.
  rewrite lookup_set. destruct (String.eqb_spec k0 "__proto__") as [->|_];
    [reflexivity | now rewrite andb_false_r].
Qed.

(** The loop of [descToSchema]: under every key, the last definition that
    settles it, or what was there before. *)
Lemma for_of_add_prop props acc ps k :
  for_of props add_prop acc = Normal ps -> k <> "__proto__" ->
  lookup k ps =
    match last_settled k props with
    | Some frag => Some frag
    | None => lookup k acc
    end.
Proof.
  revert acc. induction props as [|prop tl IH]; simpl; intros acc H Hk.
  - now inversion H.
  - apply bind_normal in H as (acc' & Hacc & H).
    rewrite (IH acc' H Hk). destruct (last_settled k tl); [reflexivity|].
    rewrite (add_prop_lookup acc prop acc' k Hacc Hk).
    destruct (settles k prop) eqn:E; [|reflexivity].
    unfold settles in E. destruct (propToSchema prop) as [[]| |]; try reflexivity;
      now rewrite andb_false_r in E.
Qed.

Lemma for_of_add_prop_proto props acc ps :
  for_of props add_prop acc = Normal ps ->
  lookup "__proto__" ps = lookup "__proto__" acc.
Proof.
  revert acc. induction props as [|prop tl IH]; simpl; intros acc H.
  - now inversion H.
  - apply bind_normal in H as (acc' & Hacc & H).
    rewrite (IH acc' H). now apply (add_prop_proto acc prop).
Qed.

Lemma add_prop_total acc prop :
  well_formed prop = true -> exists acc', add_prop acc prop = Normal acc'.
Proof.
  intros Hwf. unfold add_prop.
  destruct (negb (truthy prop) || negb (truthy (get prop "name"))); [eauto|].
  destruct (propToSchema_total prop Hwf) as [r ->]. simpl.
  destruct (negb (is_null r)); [|eauto].
  unfold to_property_key.
  destruct (to_string_total (get prop "name")) as [k0 ->];
    [now apply well_formed_get | simpl; eauto].
Qed.

(** X21: what [descToSchema] puts into [properties].  For a description whose
    [properties] is a list, whenever a document is returned, every key
    other than [__proto__] holds the fragment of the last definition of
    the list that settles it, or is absent when there is none; the key
    [__proto__] is never there.  A document is returned when the
    definitions are well-formed. *)
Lemma descToSchema_properties desc versionLabel props :
  get desc "properties" = VArr props ->
  (Forall (fun prop => well_formed prop = true) props ->
   exists schema, descToSchema desc versionLabel = Normal (VObj schema))
  /\ (forall schema, descToSchema desc versionLabel = Normal (VObj schema) ->
      exists ps,
        get_own schema "properties" = VObj ps
        /\ forall k, lookup k ps = if k =? "__proto__" then None else last_settled k props).
Proof.
  intros Hprops.
  assert (Hread : read desc "displayName" = Normal (get desc "displayName")).
  { destruct desc; try discriminate; reflexivity. }
  unfold descToSchema. rewrite Hread, Hprops. simpl. split.
  - intros Hwf. rewrite Forall_forall in Hwf.
    destruct (for_of_total add_prop props []) as [ps ->]; [|simpl; eauto].
    intros prop Hin acc. apply add_prop_total. auto.
  - intros schema H. apply bind_normal in H as (ps & Hps & H).
    inversion H; subst schema; clear H. exists ps. split; [now obj_simpl|].
    intros k. destruct (String.eqb_spec k "__proto__") as [->|Hk].
    + now rewrite (for_of_add_prop_proto props [] ps Hps).
    + rewrite (for_of_add_prop props [] ps k Hps Hk).
      now destruct (last_settled k props).
Qed.

(** Input order, skipped entries and overwriting, on an example: the
    second [url] replaces the first where the first was put, the nameless
    and the absent entry and the notice leave no trace. *)
Example descToSchema_duplicates :
  exists schema,
    descToSchema ex_duplicates VUndef = Normal (VObj schema)
    /\ get_own schema "properties"
       = VObj [("url", VObj [("type", VStr "boolean")]);
               ("retries", VObj [("type", VStr "number")])].
Proof. eexists. split; vm_compute; reflexivity. Qed.

End Assembler.

(** C4: the code departs from the claim.  The one definition of the
    description [ex_proto_desc] has a name, [__proto__], and converts to a
    fragment, yet the [properties] of the document are empty: the
    assignment of line 215 under that key reaches the accessor of
    [Object.prototype] and stores nothing. *)
Theorem descToSchema_drops_proto :
  propToSchema (VObj [("name", VStr "__proto__"); ("type", VStr "string")])
  = Normal (VObj [("type", VStr "string")])
  /\ exists schema,
      descToSchema ex_proto_desc VUndef = Normal (VObj schema)
      /\ get_own schema "properties" = VObj [].
Proof. split; [|eexists; split]; vm_compute; reflexivity. Qed.

(** ** Further properties of the engine *)

Section CommonFields.

Lemma common_has prop :
  has_own "x-title" (common prop) = truthy (get prop "displayName")
  /\ has_own "description" (common prop) = truthy (get prop "description")
  /\ has_own "default" (common prop) = negb (is_undefined (get prop "default"))
  /\ has_own "x-displayOptions" (common prop) = truthy (get prop "displayOptions")
  /\ has_own "x-required" (common prop) = truthy (get prop "required").
Proof.
  unfold common. repeat split; autorewrite with obj; simpl;
    autorewrite with obj; reflexivity.
Qed.

Lemma common_get prop :
  (truthy (get prop "displayName") = true ->
   get_own (common prop) "x-title" = get prop "displayName")
  /\ (truthy (get prop "description") = true ->
      get_own (common prop) "description" = get prop "description")
  /\ get_own (common prop) "default" = get prop "default"
  /\ (truthy (get prop "displayOptions") = true ->
      get_own (common prop) "x-displayOptions" = get prop "displayOptions")
  /\ (truthy (get prop "required") = true ->
      get_own (common prop) "x-required" = VBool true).
Proof.
  unfold common. repeat split; try intros H; autorewrite with obj; simpl;
    autorewrite with obj; rewrite ?H; simpl; try reflexivity.
  destruct (get prop "default"); reflexivity.
Qed.

Lemma common_get_fresh prop k :
  ~ In k common_keys -> get_own (common prop) k = VUndef.
Proof.
  intros H. pose proof (common_fresh prop k H) as E.
  unfold has_own in E. unfold get_own. now destruct (lookup k (common prop)).
Qed.

End CommonFields.

(** The [switch] leaves the fields of lines 15-19 as they are. *)
Lemma convert_keeps_common rec prop s0 s k :
  In k common_keys -> convert rec prop s0 = Normal s ->
  has_own k s = has_own k s0 /\ get_own s k = get_own s0 k.
Proof.
  intros Hk H. unfold convert in H.
  destruct (arm_of (get prop "type")); convert_inv H;
    unfold common_keys in Hk; simpl in Hk;
    repeat (destruct Hk as [<-|Hk]; [split; autorewrite with obj; simpl;
                                     autorewrite with obj; reflexivity|]);
    destruct Hk.
Qed.

(** X1: whatever its type, a fragment carries the display name of the
    definition as [x-title], its description, its default, its display
    options as [x-displayOptions] and the mark [x-required], each exactly
    when the definition has it; a default is kept as soon as it is not
    [undefined], be it [null], [false], [0] or the empty string, the others
    only when truthy. *)
Theorem fragment_common_fields prop s :
  propToSchema prop = Normal (VObj s) ->
  (has_own "x-title" s = truthy (get prop "displayName")
   /\ (truthy (get prop "displayName") = true ->
       get_own s "x-title" = get prop "displayName"))
  /\ (has_own "description" s = truthy (get prop "description")
      /\ (truthy (get prop "description") = true ->
          get_own s "description" = get prop "description"))
  /\ (has_own "default" s = negb (is_undefined (get prop "default"))
      /\ get_own s "default" = get prop "default")
  /\ (has_own "x-displayOptions" s = truthy (get prop "displayOptions")
      /\ (truthy (get prop "displayOptions") = true ->
          get_own s "x-displayOptions" = get prop "displayOptions"))
  /\ (has_own "x-required" s = truthy (get prop "required")
      /\ (truthy (get prop "required") = true -> get_own s "x-required" = VBool true)).
Proof.
  intros Hs.
  apply propToSchema_normal in Hs as [[_ E]|[_ (s' & E & Hs)]]; [discriminate|].
  inversion E; subst s'; clear E.
  destruct (common_has prop) as (H1 & H2 & H3 & H4 & H5).
  destruct (common_get prop) as (G1 & G2 & G3 & G4 & G5).
  assert (K : forall k, In k common_keys ->
                        has_own k s = has_own k (common prop)
                        /\ get_own s k = get_own (common prop) k)
    by (intros k Hk; now apply (convert_keeps_common propToSchema prop)).
  repeat split; try intros Ht;
    match goal with
    | |- has_own ?k _ = _ =>
        destruct (K k) as [-> _]; [unfold common_keys; simpl; tauto | assumption]
    | |- get_own _ ?k = _ =>
        destruct (K k) as [_ ->]; [unfold common_keys; simpl; tauto | auto]
    end.
Qed.

Lemma fragment_common_fields_witness :
  exists s,
    propToSchema ex_titled = Normal (VObj s)
    /\ get_own s "x-title" = VStr "API Key"
    /\ has_own "description" s = false
    /\ get_own s "default" = VStr "" /\ has_own "default" s = true.
Proof.
  assert (E : exists s, propToSchema ex_titled = Normal (VObj s))
    by (eexists; vm_compute; reflexivity).
  destruct E as [s E]. exists s. split; [exact E|].
  destruct (fragment_common_fields ex_titled s E)
    as ((_ & T) & (D & _) & (F & G) & _).
  repeat split; [now apply T | exact D | exact G | exact F].
Defined.

(** X2: a named definition of type [string] or [hidden] always converts,
    whatever else it holds, to a fragment of type [string]; the format
    [password], [x-rows] and [x-editor] are there exactly when the tuning
    flag of that name is truthy, so a [rows] of [0] is dropped. *)
Theorem string_fragment prop :
  truthy (get prop "name") = true ->
  tagged "string" prop \/ tagged "hidden" prop ->
  let tuning := get prop "typeOptions" in
  exists s,
    propToSchema prop = Normal (VObj s)
    /\ get_own s "type" = VStr "string"
    /\ has_own "format" s = truthy (get tuning "password")
    /\ (truthy (get tuning "password") = true -> get_own s "format" = VStr "password")
    /\ has_own "x-rows" s = truthy (get tuning "rows")
    /\ (truthy (get tuning "rows") = true -> get_own s "x-rows" = get tuning "rows")
    /\ has_own "x-editor" s = truthy (get tuning "editor")
    /\ (truthy (get tuning "editor") = true ->
        get_own s "x-editor" = get tuning "editor").
Proof.
  intros Hname Htag tuning.
  assert (Hc : no_contribution prop = false).
  { apply named_contributes; [assumption|]. unfold tagged in *.
    destruct Htag; congruence. }
  assert (Ha : arm_of (get prop "type") = AString).
  { destruct Htag as [H|H]; rewrite (tagged_arm _ _ H); reflexivity. }
  rewrite propToSchema_eq, Hc. unfold convert. rewrite Ha. simpl.
  eexists. split; [reflexivity|]. fold tuning.
  repeat split; try intros Ht; obj_simpl; rewrite ?Ht; reflexivity.
Qed.

Lemma string_fragment_witness :
  exists s,
    propToSchema ex_titled = Normal (VObj s)
    /\ get_own s "format" = VStr "password"
    /\ has_own "x-rows" s = false.
Proof.
  destruct (string_fragment ex_titled) as (s & E & _ & _ & F & R & _);
    [reflexivity | left; reflexivity |].
  exists s. split; [exact E|]. split; [now apply F | exact R].
Defined.

(** X3: a named definition of type [number] always converts, to a fragment
    of type [number]; [minimum], [maximum], [x-precision] and [x-stepSize]
    hold what [minValue], [maxValue], [numberPrecision] and
    [numberStepSize] hold, and are there exactly when that is not
    [undefined]: a bound of [0] is kept. *)
Theorem number_fragment prop :
  truthy (get prop "name") = true ->
  tagged "number" prop ->
  let tuning := get prop "typeOptions" in
  exists s,
    propToSchema prop = Normal (VObj s)
    /\ get_own s "type" = VStr "number"
    /\ (has_own "minimum" s = negb (is_undefined (get tuning "minValue"))
        /\ get_own s "minimum" = get tuning "minValue")
    /\ (has_own "maximum" s = negb (is_undefined (get tuning "maxValue"))
        /\ get_own s "maximum" = get tuning "maxValue")
    /\ (has_own "x-precision" s = negb (is_undefined (get tuning "numberPrecision"))
        /\ get_own s "x-precision" = get tuning "numberPrecision")
    /\ (has_own "x-stepSize" s = negb (is_undefined (get tuning "numberStepSize"))
        /\ get_own s "x-stepSize" = get tuning "numberStepSize").
Proof.
  intros Hname Htag tuning.
  assert (Hc : no_contribution prop = false).
  { apply named_contributes; [assumption|]. unfold tagged in *. congruence. }
  rewrite propToSchema_eq, Hc. unfold convert. rewrite (tagged_arm _ _ Htag).
  change (select "number" arms) with ANumber. cbv iota zeta.
  eexists. split; [reflexivity|]. fold tuning.
  repeat split; obj_simpl; try reflexivity;
    match goal with
    | |- (if negb (is_undefined ?v) then _ else _) = _ =>
        destruct v; simpl;
        rewrite ?common_get_fresh by (vm_compute; intuition discriminate);
        reflexivity
    end.
Qed.

Lemma number_fragment_witness :
  exists s,
    propToSchema ex_timeout = Normal (VObj s)
    /\ has_own "minimum" s = true /\ get_own s "minimum" = VNum 0
    /\ has_own "x-precision" s = false.
Proof.
  destruct (number_fragment ex_timeout) as (s & E & _ & (M & V) & _ & (P & _) & _);
    [reflexivity | reflexivity |].
  exists s. repeat split; [exact E | exact M | exact V | exact P].
Defined.

Lemma common_ext prop prop' :
  (forall k, In k common_attributes -> get prop k = get prop' k) ->
  common prop = common prop'.
Proof.
  intros H. unfold common.
  rewrite !(H "displayName"), !(H "description"), !(H "default"),
    !(H "displayOptions"), !(H "required")
    by (unfold common_attributes; simpl; tauto).
  reflexivity.
Qed.

(** X4: the arms [boolean], [json], [dateTime], [color], [filter],
    [credentialsSelect] and [assignmentCollection] never throw and look at
    nothing but the five common attributes: two named definitions with the
    same of these tags that agree on [displayName], [description],
    [default], [displayOptions] and [required] convert to the same
    fragment, whatever [options], [typeOptions], [modes] or other data
    either holds. *)
Theorem fixed_arms_ignore_payload t prop prop' :
  In t fixed_tags ->
  tagged t prop -> tagged t prop' ->
  truthy (get prop "name") = true -> truthy (get prop' "name") = true ->
  (forall k, In k common_attributes -> get prop k = get prop' k) ->
  (exists s, propToSchema prop = Normal (VObj s))
  /\ propToSchema prop = propToSchema prop'.
Proof.
  intros Ht Htag Htag' Hn Hn' Hsame.
  assert (Hne : t <> "notice").
  { intros ->. vm_compute in Ht. intuition discriminate. }
  assert (Hc : no_contribution prop = false).
  { apply named_contributes; [assumption|]. unfold tagged in *. congruence. }
  assert (Hc' : no_contribution prop' = false).
  { apply named_contributes; [assumption|]. unfold tagged in *. congruence. }
  rewrite !propToSchema_eq, Hc, Hc'. unfold convert.
  rewrite (tagged_arm _ _ Htag), (tagged_arm _ _ Htag'), (common_ext prop prop' Hsame).
  unfold fixed_tags in Ht. simpl in Ht.
  repeat (destruct Ht as [<-|Ht]; [vm_compute select; simpl; eauto|]).
  destruct Ht.
Qed.

Lemma fixed_arms_ignore_payload_witness :
  propToSchema ex_switch = propToSchema ex_switch_payload.
Proof.
  apply (fixed_arms_ignore_payload "boolean" ex_switch ex_switch_payload);
    try reflexivity.
  - vm_compute. tauto.
  - intros k Hk. vm_compute in Hk.
    repeat (destruct Hk as [<-|Hk]; [reflexivity|]). destruct Hk.
Defined.

(** X5: without a list of choices there is no enumeration.  A named
    definition of type [options] whose [options] is no array converts to a
    fragment of type [string] with no [enum], [x-enumNames] or
    [x-enumDescriptions]; one of type [multiOptions] converts to an array
    whose items are plain strings, with no [x-enumNames]. *)
Theorem options_without_list prop :
  truthy (get prop "name") = true ->
  isArray (get prop "options") = false ->
  (tagged "options" prop ->
   exists s,
     propToSchema prop = Normal (VObj s)
     /\ get_own s "type" = VStr "string"
     /\ has_own "enum" s = false
     /\ has_own "x-enumNames" s = false
     /\ has_own "x-enumDescriptions" s = false)
  /\ (tagged "multiOptions" prop ->
      exists s,
        propToSchema prop = Normal (VObj s)
        /\ get_own s "type" = VStr "array"
        /\ get_own s "items" = VObj [("type", VStr "string")]
        /\ has_own "x-enumNames" s = false).
Proof.
  intros Hname Harr. split; intros Htag;
    (assert (Hc : no_contribution prop = false)
      by (apply named_contributes; [assumption|]; unfold tagged in *; congruence));
    rewrite propToSchema_eq, Hc; unfold convert; rewrite (tagged_arm _ _ Htag).
  - change (select "options" arms) with AOptions. cbv iota zeta.
    destruct (get prop "options"); try discriminate;
      simpl; eexists; (split; [reflexivity|]); now obj_simpl.
  - change (select "multiOptions" arms) with AMultiOptions. cbv iota zeta.
    destruct (get prop "options"); try discriminate;
      simpl; eexists; (split; [reflexivity|]); now obj_simpl.
Qed.

Lemma options_without_list_witness :
  (exists s, propToSchema ex_plain_options = Normal (VObj s) /\ has_own "enum" s = false)
  /\ (exists s, propToSchema ex_plain_multi = Normal (VObj s)
                /\ get_own s "items" = VObj [("type", VStr "string")]).
Proof.
  split.
  - destruct (options_without_list ex_plain_options) as [H _]; try reflexivity.
    destruct (H eq_refl) as (s & E & _ & N & _). now exists s.
  - destruct (options_without_list ex_plain_multi) as [_ H]; try reflexivity.
    destruct (H eq_refl) as (s & E & _ & I & _). now exists s.
Defined.

Section Failures.

Context {A B : Type}.

Lemma filterM_throws (f : A -> completion bool) l x :
  In x l -> f x = TypeError -> (forall y, f y <> OutOfFuel) -> filterM f l = TypeError.
Proof.
  intros Hin Hx Hf. induction l as [|y tl IH]; simpl; [destruct Hin|].
  destruct Hin as [->|Hin].
  - now rewrite Hx.
  - specialize (IH Hin). specialize (Hf y).
    destruct (f y); simpl; [now rewrite IH | reflexivity | contradiction].
Qed.

Lemma mapM_throws (f : A -> completion B) l x :
  In x l -> f x = TypeError -> (forall y, f y <> OutOfFuel) -> mapM f l = TypeError.
Proof.
  intros Hin Hx Hf. induction l as [|y tl IH]; simpl; [destruct Hin|].
  destruct Hin as [->|Hin].
  - now rewrite Hx.
  - specialize (IH Hin). specialize (Hf y).
    destruct (f y); simpl; [now rewrite IH | reflexivity | contradiction].
Qed.

Lemma for_of_throws (f : B -> A -> completion B) l x st :
  In x l -> (forall s, f s x = TypeError) ->
  (forall y s, f s y <> OutOfFuel) -> for_of l f st = TypeError.
Proof.
  intros Hin Hx Hf. revert st. induction l as [|y tl IH]; simpl; intros st;
    [destruct Hin|].
  destruct Hin as [->|Hin].
  - now rewrite Hx.
  - specialize (Hf y st).
    destruct (f st y); simpl; [now apply IH | reflexivity | contradiction].
Qed.

End Failures.

(** X6: what makes the converter throw.  A named definition of type
    [options] or [multiOptions] with a truthy entry in its list that is
    no object (a bare string, a number, [true]) throws a [TypeError], and
    so does one of type [resourceLocator] with a [null] or [undefined]
    entry in its [modes]: nothing guards the [in] of lines 42 and 52 or
    the [m.name] of line 118 against them. *)
Theorem propToSchema_type_errors prop l :
  truthy (get prop "name") = true ->
  ((tagged "options" prop \/ tagged "multiOptions" prop) ->
   get prop "options" = VArr l ->
   (exists o, In o l /\ truthy o = true /\ is_object o = false) ->
   propToSchema prop = TypeError)
  /\ (tagged "resourceLocator" prop ->
      get prop "modes" = VArr l ->
      (exists m, In m l /\ is_nullish m = true) ->
      propToSchema prop = TypeError).
Proof.
  intros Hname. split.
  - intros Htag Hopts (o & Hin & Ht & Ho).
    assert (Hc : no_contribution prop = false).
    { apply named_contributes; [assumption|]. unfold tagged in *.
      destruct Htag; congruence. }
    assert (Hv : value_in o = TypeError) by (destruct o; try discriminate; reflexivity).
    rewrite propToSchema_eq, Hc. unfold convert.
    destruct Htag as [Htag|Htag]; rewrite (tagged_arm _ _ Htag), Hopts.
    + change (select "options" arms) with AOptions. cbv iota zeta.
      rewrite (filterM_throws valid_option l o Hin);
        [reflexivity | | apply valid_option_terminates].
      unfold valid_option. now rewrite Ht, Hv.
    + change (select "multiOptions" arms) with AMultiOptions. cbv iota zeta.
      rewrite (filterM_throws valid_multi_option l o Hin);
        [reflexivity | | apply valid_multi_option_terminates].
      unfold valid_multi_option. now rewrite Ht.
  - intros Htag Hmodes (m & Hin & Hm).
    assert (Hc : no_contribution prop = false).
    { apply named_contributes; [assumption|]. unfold tagged in *. congruence. }
    rewrite propToSchema_eq, Hc. unfold convert.
    rewrite (tagged_arm _ _ Htag), Hmodes.
    change (select "resourceLocator" arms) with AResourceLocator. cbv iota zeta.
    rewrite (mapM_throws (fun m => read m "name") l m Hin);
      [reflexivity | | intros y; apply read_terminates].
    destruct m; try discriminate; reflexivity.
Qed.

Lemma propToSchema_type_errors_witness :
  propToSchema ex_bare_choice = TypeError /\ propToSchema ex_null_mode = TypeError.
Proof.
  split.
  - destruct (propToSchema_type_errors ex_bare_choice [VStr "fast"]) as [H _];
      [reflexivity|].
    apply H; [left; reflexivity | reflexivity |].
    exists (VStr "fast"). repeat split. now left.
  - destruct (propToSchema_type_errors ex_null_mode [VObj [("name", VStr "id")]; VNull])
      as [_ H]; [reflexivity|].
    apply H; [reflexivity | reflexivity |].
    exists VNull. split; [right; now left | reflexivity].
Defined.

Section Nesting.

(** The loops over sub-definitions and the loop of the assembler have the
    same body: a conversion gives [null] or an object, on which [if (subS)]
    and [!== null] agree. *)
Lemma add_sub_add_prop acc sub : add_sub propToSchema acc sub = add_prop acc sub.
Proof.
  unfold add_sub, add_prop.
  destruct (negb (truthy sub) || negb (truthy (get sub "name"))); [reflexivity|].
  destruct (propToSchema sub) as [r| |] eqn:E; simpl; try reflexivity.
  destruct (propToSchema_normal sub r E) as [[_ ->]|[_ (s & -> & _)]]; reflexivity.
Qed.

Lemma for_of_add_sub subs acc :
  for_of subs (add_sub propToSchema) acc = for_of subs add_prop acc.
Proof. apply for_of_ext. intros x _ s. apply add_sub_add_prop. Qed.

Lemma add_prop_terminates acc prop : add_prop acc prop <> OutOfFuel.
Proof.
  unfold add_prop.
  destruct (negb (truthy prop) || negb (truthy (get prop "name"))); [discriminate|].
  apply bind_terminates; [apply propToSchema_terminates|]. intros r.
  destruct (negb (is_null r)); [|discriminate].
  apply bind_terminates; [apply to_string_terminates | discriminate].
Qed.

Lemma add_prop_skips acc prop : contributes prop = false -> add_prop acc prop = Normal acc.
Proof.
  unfold contributes. rewrite negb_false_iff. intros H. unfold add_prop.
  destruct (negb (truthy prop) || negb (truthy (get prop "name"))); [reflexivity|].
  now rewrite propToSchema_eq, H.
Qed.

Lemma for_of_add_prop_filter props acc :
  for_of props add_prop acc = for_of (filter contributes props) add_prop acc.
Proof.
  revert acc. induction props as [|prop tl IH]; simpl; intros acc; [reflexivity|].
  destruct (contributes prop) eqn:E; simpl.
  - destruct (add_prop acc prop); simpl; auto.
  - rewrite (add_prop_skips acc prop E). simpl. apply IH.
Qed.

Lemma In_set o k v k' v' :
  In (k', v') (set o k v) -> In (k', v') o \/ (k' = k /\ v' = v).
Proof.
  unfold set. destruct (k =? "__proto__"); [now left|].
  destruct (has_own k o).
  - induction o as [|[e w] tl IH]; simpl; [tauto|].
    destruct (String.eqb_spec e k) as [->|_]; simpl.
    + intros [E|H]; [inversion E; now right | left; now right].
    + intros [E|H]; [left; now left|]. destruct (IH H) as [H'|H']; [left; now right | now right].
  - intros H. apply in_app_or in H as [H|[E|[]]]; [now left|]. inversion E. now right.
Qed.

Lemma for_of_entries {A} (f : obj -> A -> completion obj) (P : string -> value -> Prop) l :
  (forall x, In x l -> forall acc acc', f acc x = Normal acc' ->
             forall k v, In (k, v) acc' -> In (k, v) acc \/ P k v) ->
  forall acc ps, for_of l f acc = Normal ps ->
                 forall k v, In (k, v) ps -> In (k, v) acc \/ P k v.
Proof.
  induction l as [|x tl IH]; simpl; intros H acc ps E k v Hin.
  - inversion E; subst. now left.
  - apply bind_normal in E as (acc' & Hacc & E).
    destruct (IH (fun y Hy => H y (or_intror Hy)) acc' ps E k v Hin) as [Hin'|HP];
      [|now right].
    apply (H x (or_introl eq_refl) acc acc' Hacc k v Hin').
Qed.

Lemma add_group_entries rec prop acc group acc' k v :
  add_group rec prop acc group = Normal acc' -> In (k, v) acc' ->
  In (k, v) acc
  \/ (group_shape (multiple_values prop) v
      /\ truthy (get group "name") = true
      /\ to_property_key (get group "name") = Normal k).
Proof.
  unfold add_group. intros H Hin.
  destruct (truthy group); simpl in H; [|inversion H; subst; now left].
  destruct (truthy (get group "name")) eqn:Hn; simpl in H; [|inversion H; subst; now left].
  apply bind_normal in H as (itemProps & _ & H).
  apply bind_normal in H as (k0 & Hk0 & H). inversion H; subst acc'; clear H.
  apply In_set in Hin as [Hin|[-> ->]]; [now left|]. right.
  split; [|now split]. unfold group_shape. fold (multiple_values prop).
  destruct (multiple_values prop); simpl; obj_simpl; eauto.
Qed.

End Nesting.

(** X7: the [properties] of a [collection].  For a named definition of
    type [collection] whose [options] is a list, every fragment returned
    has a [properties] object in which each key other than [__proto__]
    holds the fragment of the last sub-definition of the list that has
    this name and converts (absent, nameless and [notice] entries leave
    nothing), and the key [__proto__] is never there; a fragment is
    returned when the sub-definitions are well-formed. *)
Theorem collection_sub_definitions prop subs :
  truthy (get prop "name") = true ->
  tagged "collection" prop ->
  get prop "options" = VArr subs ->
  (Forall (fun sub => well_formed sub = true) subs ->
   exists s, propToSchema prop = Normal (VObj s))
  /\ (forall s, propToSchema prop = Normal (VObj s) ->
      get_own s "type" = VStr "object"
      /\ exists ps,
          get_own s "properties" = VObj ps
          /\ forall k, lookup k ps = if k =? "__proto__" then None else last_settled k subs).
Proof.
  intros Hname Htag Hopts.
  assert (Hc : no_contribution prop = false).
  { apply named_contributes; [assumption|]. unfold tagged in *. congruence. }
  rewrite propToSchema_eq, Hc. unfold convert. rewrite (tagged_arm _ _ Htag), Hopts.
  change (select "collection" arms) with ACollection. cbv iota zeta.
  rewrite for_of_add_sub. split.
  - intros Hwf. rewrite Forall_forall in Hwf.
    destruct (for_of_total add_prop subs []) as [ps ->]; [|simpl; eauto].
    intros sub Hin acc. apply add_prop_total. auto.
  - intros s H. normal_inv. rename a0 into ps.
    split; [now obj_simpl|]. exists ps. split; [now obj_simpl|].
    intros k. destruct (String.eqb_spec k "__proto__") as [->|Hk].
    + now rewrite (for_of_add_prop_proto subs [] ps Ha0).
    + rewrite (for_of_add_prop subs [] ps k Ha0 Hk).
      now destruct (last_settled k subs).
Qed.

Lemma collection_sub_definitions_witness :
  exists s ps,
    propToSchema ex_nested = Normal (VObj s)
    /\ get_own s "properties" = VObj ps
    /\ lookup "timeout" ps = Some (VObj [("type", VStr "boolean")])
    /\ lookup "missing" ps = None.
Proof.
  destruct (collection_sub_definitions ex_nested
              [ex_timeout; VNull; ex_mode;
               VObj [("name", VStr "timeout"); ("type", VStr "boolean")]])
    as [Hex Hs]; try reflexivity.
  destruct Hex as [s E]; [repeat constructor|].
  destruct (Hs s E) as (_ & ps & Hps & Hk).
  exists s, ps. repeat split; [exact E | exact Hps | |].
  - rewrite Hk. vm_compute. reflexivity.
  - rewrite Hk. vm_compute. reflexivity.
Defined.

(** X8: nesting is uniform.  A named [collection] over a list of
    sub-definitions and a description with the same list as its
    [properties] fail together, and when both convert, the [properties]
    of the fragment and of the document are the same object. *)
Theorem collection_like_document prop desc versionLabel subs :
  truthy (get prop "name") = true ->
  tagged "collection" prop ->
  get prop "options" = VArr subs ->
  get desc "properties" = VArr subs ->
  (propToSchema prop = TypeError <-> descToSchema desc versionLabel = TypeError)
  /\ (forall s schema,
        propToSchema prop = Normal (VObj s) ->
        descToSchema desc versionLabel = Normal (VObj schema) ->
        get_own s "properties" = get_own schema "properties").
Proof.
  intros Hname Htag Hopts Hprops.
  assert (Hc : no_contribution prop = false).
  { apply named_contributes; [assumption|]. unfold tagged in *. congruence. }
  assert (Hread : read desc "displayName" = Normal (get desc "displayName")).
  { destruct desc; try discriminate; reflexivity. }
  rewrite propToSchema_eq, Hc. unfold convert. rewrite (tagged_arm _ _ Htag), Hopts.
  change (select "collection" arms) with ACollection. cbv iota zeta.
  rewrite for_of_add_sub.
  unfold descToSchema. rewrite Hread, Hprops. simpl.
  destruct (for_of subs add_prop []) as [ps| |]; simpl.
  - split; [split; discriminate|]. intros s schema E E'.
    inversion E; inversion E'. now obj_simpl.
  - split; [tauto | discriminate].
  - split; [split; discriminate | discriminate].
Qed.

Lemma collection_like_document_witness :
  exists s schema,
    propToSchema ex_nested = Normal (VObj s)
    /\ descToSchema ex_nested_desc VUndef = Normal (VObj schema)
    /\ get_own s "properties" = get_own schema "properties".
Proof.
  assert (E : exists s, propToSchema ex_nested = Normal (VObj s))
    by (eexists; vm_compute; reflexivity).
  assert (E' : exists schema, descToSchema ex_nested_desc VUndef = Normal (VObj schema))
    by (eexists; vm_compute; reflexivity).
  destruct E as [s E], E' as [schema E']. exists s, schema.
  split; [exact E|]. split; [exact E'|].
  destruct (collection_like_document ex_nested ex_nested_desc VUndef
              [ex_timeout; VNull; ex_mode;
               VObj [("name", VStr "timeout"); ("type", VStr "boolean")]])
    as [_ H]; try reflexivity.
  now apply H.
Defined.

(** X9: the groups of a [fixedCollection].  In every fragment of a named
    definition of type [fixedCollection], each entry of [properties] is
    stored under the name of a named group of [options], and has the
    shape the flag [typeOptions.multipleValues] asks for, the same for
    all groups: an array whose items are objects carrying the
    sub-definitions when the flag is truthy, an object carrying them
    itself otherwise. *)
Theorem fixedCollection_groups prop s :
  truthy (get prop "name") = true ->
  tagged "fixedCollection" prop ->
  propToSchema prop = Normal (VObj s) ->
  exists ps,
    get_own s "properties" = VObj ps
    /\ forall k g, lookup k ps = Some g ->
         group_shape (multiple_values prop) g
         /\ exists groups group,
             get prop "options" = VArr groups
             /\ In group groups
             /\ truthy (get group "name") = true
             /\ to_property_key (get group "name") = Normal k.
Proof.
  intros Hname Htag Hs.
  apply propToSchema_normal in Hs as [[_ E]|[_ (s' & E & Hs)]]; [discriminate|].
  inversion E; subst s'; clear E.
  unfold convert in Hs. rewrite (tagged_arm _ _ Htag) in Hs.
  change (select "fixedCollection" arms) with AFixedCollection in Hs.
  cbv iota zeta in Hs. normal_inv. rename a into ps.
  exists ps. split; [now obj_simpl|]. intros k g Hk.
  apply lookup_In in Hk.
  destruct (get prop "options") as [| | | | |groups|] eqn:Hopts;
    try (inversion Ha; subst; destruct Hk).
  pose proof (for_of_entries (add_group propToSchema prop)
                (fun k v => group_shape (multiple_values prop) v
                            /\ exists group, In group groups
                                 /\ truthy (get group "name") = true
                                 /\ to_property_key (get group "name") = Normal k)
                groups) as Hinv.
  destruct (Hinv) with (acc := @nil (string * value)) (ps := ps) (k := k) (v := g)
    as [[]|[Hshape (group & Hin & Hn & Hkey)]]; try assumption.
  - intros x Hx acc acc' Hacc k' v' Hin'.
    destruct (add_group_entries _ _ _ _ _ _ _ Hacc Hin') as [H|(H1 & H2 & H3)];
      [now left | right; eauto].
  - split; [assumption|]. exists groups, group. auto.
Qed.

Lemma fixedCollection_groups_witness :
  exists s ps g,
    propToSchema ex_grouped = Normal (VObj s)
    /\ get_own s "properties" = VObj ps
    /\ lookup "parameter" ps = Some g
    /\ get g "type" = VStr "array".
Proof.
  assert (E : exists s, propToSchema ex_grouped = Normal (VObj s))
    by (eexists; vm_compute; reflexivity).
  destruct E as [s E].
  destruct (fixedCollection_groups ex_grouped s eq_refl eq_refl E) as (ps & Hps & H).
  assert (L : exists g, lookup "parameter" ps = Some g).
  { vm_compute in E. inversion E; subst s. vm_compute in Hps. inversion Hps; subst ps.
    eexists. vm_compute. reflexivity. }
  destruct L as [g L]. exists s, ps, g. repeat split; try assumption.
  now destruct (H "parameter" g L) as [(T & _) _].
Defined.

Lemma descToSchema_properties_witness :
  exists schema ps,
    descToSchema ex_duplicates VUndef = Normal (VObj schema)
    /\ get_own schema "properties" = VObj ps
    /\ lookup "url" ps = Some (VObj [("type", VStr "boolean")])
    /\ lookup "__proto__" ps = None.
Proof.
  destruct (descToSchema_properties ex_duplicates VUndef
              [VObj [("name", VStr "url"); ("type", VStr "string")];
               VObj [("type", VStr "string")];
               VObj [("name", VStr "retries"); ("type", VStr "number")];
               VNull;
               VObj [("name", VStr "url"); ("type", VStr "boolean")];
               VObj [("name", VStr "retries"); ("type", VStr "notice")]])
    as [Hex Hs]; [reflexivity|].
  destruct Hex as [schema E]; [repeat constructor|].
  destruct (Hs schema E) as (ps & Hps & Hk).
  exists schema, ps. repeat split; [exact E | exact Hps | |].
  - rewrite Hk. vm_compute. reflexivity.
  - rewrite Hk. reflexivity.
Defined.

Section Document.

Lemma read_normal v k x : read v k = Normal x -> is_nullish v = false /\ x = get v k.
Proof. destruct v; simpl; intros E; inversion E; auto. Qed.

Lemma for_of_chars str acc : for_of (chars str) add_prop acc = Normal acc.
Proof. induction str as [|c r IH]; simpl; [reflexivity | exact IH]. Qed.

End Document.

(** Takes [descToSchema desc label = Normal (VObj schema)] apart. *)
Ltac document_inv H :=
  unfold descToSchema in H;
  let d := fresh "displayName" in
  let Hd := fresh "Hd" in
  apply bind_normal in H as (d & Hd & H);
  apply read_normal in Hd as [? ->];
  normal_inv.


(** X10: the fixed part of a document.  Every document [descToSchema]
    returns is of type [object] under the draft-07 identifier, has a
    [properties] object, the name of the description as [x-n8n-node-type],
    its display name, or else its name, as title, and a description that
    is the description's when truthy and the empty string otherwise;
    [x-n8n-group] is always an array: the group list itself, the single
    truthy group wrapped, or the empty list; [x-n8n-version] is the label
    passed whenever that is not [undefined], even [null] or [0], else the
    description's version when truthy, else [1], so never [undefined]. *)
Theorem descToSchema_document desc versionLabel schema :
  descToSchema desc versionLabel = Normal (VObj schema) ->
  get_own schema "$schema" = VStr "http://json-schema.org/draft-07/schema#"
  /\ get_own schema "type" = VStr "object"
  /\ (exists ps, get_own schema "properties" = VObj ps)
  /\ get_own schema "x-n8n-node-type" = get desc "name"
  /\ get_own schema "title"
     = (if truthy (get desc "displayName") then get desc "displayName"
        else get desc "name")
  /\ get_own schema "description"
     = (if truthy (get desc "description") then get desc "description" else VStr "")
  /\ get_own schema "x-n8n-group"
     = (match get desc "group" with
        | VArr l => VArr l
        | g => if truthy g then VArr [g] else VArr []
        end)
  /\ get_own schema "x-n8n-version"
     = (match versionLabel with
        | VUndef => if truthy (get desc "version") then get desc "version" else VNum 1
        | label => label
        end)
  /\ is_undefined (get_own schema "x-n8n-version") = false.
Proof.
  intros H. document_inv H.
  repeat split; try (now obj_simpl); try (eexists; now obj_simpl).
  - obj_simpl. destruct (get desc "group") as [| |b|n|g| |]; try reflexivity; simpl.
    + now destruct b.
    + now destruct (n =? 0)%Z.
    + now destruct (g =? "").
  - obj_simpl. now destruct versionLabel.
  - obj_simpl. destruct versionLabel; try reflexivity. simpl.
    destruct (get desc "version") as [| |b|n|g| |]; try reflexivity; simpl.
    + now destruct b.
    + now destruct (n =? 0)%Z.
    + now destruct (g =? "").
Qed.

Lemma descToSchema_document_witness :
  exists schema,
    descToSchema ex_versioned_desc VUndef = Normal (VObj schema)
    /\ get_own schema "title" = VStr "HTTP Request"
    /\ get_own schema "x-n8n-group" = VArr [VStr "output"]
    /\ get_own schema "x-n8n-version" = VNum 1.
Proof.
  assert (E : exists schema, descToSchema ex_versioned_desc VUndef = Normal (VObj schema))
    by (eexists; vm_compute; reflexivity).
  destruct E as [schema E]. exists schema. split; [exact E|].
  destruct (descToSchema_document ex_versioned_desc VUndef schema E)
    as (_ & _ & _ & _ & T & _ & G & V & _).
  repeat split; [exact T | exact G | exact V].
Defined.

(** X11: the optional metadata of a document.  [x-subtitle], [x-icon],
    [x-inputs], [x-outputs] and [x-credentials] are there exactly when the
    description's [subtitle], [icon], [inputs], [outputs] and
    [credentials] are truthy, and then hold them unchanged; [x-webhooks]
    is there exactly when [webhooks] is truthy, and is then the string
    ['true'], not the list of webhooks. *)
Theorem descToSchema_metadata desc versionLabel schema :
  descToSchema desc versionLabel = Normal (VObj schema) ->
  (forall attr key,
      In (attr, key) [("subtitle", "x-subtitle"); ("icon", "x-icon");
                      ("inputs", "x-inputs"); ("outputs", "x-outputs");
                      ("credentials", "x-credentials")] ->
      has_own key schema = truthy (get desc attr)
      /\ (truthy (get desc attr) = true -> get_own schema key = get desc attr))
  /\ has_own "x-webhooks" schema = truthy (get desc "webhooks")
  /\ (truthy (get desc "webhooks") = true -> get_own schema "x-webhooks" = VStr "true").
Proof.
  intros H. document_inv H. split; [|split].
  - intros attr key Hin. simpl in Hin.
    repeat (destruct Hin as [E|Hin];
            [inversion E; subst; split; [|intros Ht]; obj_simpl; rewrite ?Ht;
             reflexivity|]).
    destruct Hin.
  - now obj_simpl.
  - intros Ht. obj_simpl. now rewrite Ht.
Qed.

Lemma descToSchema_metadata_witness :
  exists schema,
    descToSchema ex_versioned_desc VUndef = Normal (VObj schema)
    /\ get_own schema "x-icon" = VStr "fa:at"
    /\ has_own "x-subtitle" schema = false
    /\ get_own schema "x-webhooks" = VStr "true".
Proof.
  assert (E : exists schema, descToSchema ex_versioned_desc VUndef = Normal (VObj schema))
    by (eexists; vm_compute; reflexivity).
  destruct E as [schema E]. exists schema. split; [exact E|].
  destruct (descToSchema_metadata ex_versioned_desc VUndef schema E) as (M & _ & W).
  destruct (M "icon" "x-icon") as [_ I]; [simpl; tauto|].
  destruct (M "subtitle" "x-subtitle") as [S _]; [simpl; tauto|].
  repeat split; [now apply I | exact S | now apply W].
Defined.

(** X12: entries that contribute nothing can be left out.  Two
    descriptions that differ only in that the second lists, in the same
    order, just the definitions of the first that are present, named and
    no notice, give the same document (or both fail). *)
Theorem descToSchema_skips desc desc' versionLabel props :
  (forall k, k <> "properties" -> get desc k = get desc' k) ->
  get desc "properties" = VArr props ->
  get desc' "properties" = VArr (filter contributes props) ->
  descToSchema desc versionLabel = descToSchema desc' versionLabel.
Proof.
  intros Hsame Hprops Hprops'.
  assert (Hread : read desc "displayName" = Normal (get desc "displayName"))
    by (destruct desc; try discriminate; reflexivity).
  assert (Hread' : read desc' "displayName" = Normal (get desc' "displayName"))
    by (destruct desc'; try discriminate; reflexivity).
  unfold descToSchema. rewrite Hread, Hread', Hprops, Hprops'.
  rewrite !(Hsame "displayName"), !(Hsame "name"), !(Hsame "description"),
    !(Hsame "version"), !(Hsame "group"), !(Hsame "subtitle"), !(Hsame "icon"),
    !(Hsame "inputs"), !(Hsame "outputs"), !(Hsame "credentials"),
    !(Hsame "webhooks") by discriminate.
  simpl. now rewrite for_of_add_prop_filter.
Qed.

Lemma descToSchema_skips_witness :
  descToSchema ex_duplicates VUndef = descToSchema ex_filtered_desc VUndef.
Proof.
  apply (descToSchema_skips ex_duplicates ex_filtered_desc VUndef
           [VObj [("name", VStr "url"); ("type", VStr "string")];
            VObj [("type", VStr "string")];
            VObj [("name", VStr "retries"); ("type", VStr "number")];
            VNull;
            VObj [("name", VStr "url"); ("type", VStr "boolean")];
            VObj [("name", VStr "retries"); ("type", VStr "notice")]]);
    [|reflexivity|reflexivity].
  intros k Hk. unfold ex_duplicates, ex_filtered_desc, get, get_own. simpl.
  destruct ("name" =? k); [reflexivity|].
  apply String.eqb_neq in Hk. rewrite String.eqb_sym in Hk. now rewrite Hk.
Defined.

(** X13: an exception is not absorbed.  When the conversion of a named
    definition throws, so does the conversion of every [collection] that
    lists it among its [options] and of every description that lists it
    among its [properties]: no document is produced, whatever the other
    definitions are. *)
Theorem type_error_propagates bad l :
  truthy (get bad "name") = true ->
  propToSchema bad = TypeError ->
  In bad l ->
  (forall prop,
      truthy (get prop "name") = true -> tagged "collection" prop ->
      get prop "options" = VArr l ->
      propToSchema prop = TypeError)
  /\ (forall desc versionLabel,
        get desc "properties" = VArr l ->
        descToSchema desc versionLabel = TypeError).
Proof.
  intros Hname Hbad Hin.
  assert (Hloop : forall acc, for_of l add_prop acc = TypeError).
  { intros acc. apply (for_of_throws add_prop l bad); [assumption| |].
    - intros s. unfold add_prop.
      assert (Ht : truthy bad = true) by (destruct bad; try discriminate; reflexivity).
      now rewrite Ht, Hname, Hbad.
    - intros y s. apply add_prop_terminates. }
  split.
  - intros prop Hn Htag Hopts.
    assert (Hc : no_contribution prop = false).
    { apply named_contributes; [assumption|]. unfold tagged in *. congruence. }
    rewrite propToSchema_eq, Hc. unfold convert. rewrite (tagged_arm _ _ Htag), Hopts.
    change (select "collection" arms) with ACollection. cbv iota zeta.
    now rewrite for_of_add_sub, Hloop.
  - intros desc versionLabel Hprops.
    assert (Hread : read desc "displayName" = Normal (get desc "displayName"))
      by (destruct desc; try discriminate; reflexivity).
    unfold descToSchema. rewrite Hread, Hprops. simpl. now rewrite Hloop.
Qed.

Lemma type_error_propagates_witness :
  propToSchema ex_broken_collection = TypeError
  /\ descToSchema ex_broken_desc VUndef = TypeError.
Proof.
  destruct (type_error_propagates ex_bare_choice [ex_timeout; ex_bare_choice])
    as [C D]; [reflexivity | vm_compute; reflexivity | right; now left |].
  split; [apply C; reflexivity | apply D; reflexivity].
Defined.

(** X14: the edge inputs of [descToSchema].  A description that is
    [null] or [undefined] throws a [TypeError].  Any other description
    whose [properties] is falsy (absent, say) or a string converts, to a
    document with an empty [properties] object.  One whose [properties]
    is truthy but neither a list nor a string (a number, [true], a record)
    is not iterable and throws a [TypeError]. *)
Theorem descToSchema_edge_inputs desc versionLabel :
  (is_nullish desc = true -> descToSchema desc versionLabel = TypeError)
  /\ (is_nullish desc = false ->
      (truthy (get desc "properties") = false
       \/ exists str, get desc "properties" = VStr str) ->
      exists schema,
        descToSchema desc versionLabel = Normal (VObj schema)
        /\ get_own schema "properties" = VObj [])
  /\ (is_nullish desc = false ->
      truthy (get desc "properties") = true ->
      isArray (get desc "properties") = false ->
      (forall str, get desc "properties" <> VStr str) ->
      descToSchema desc versionLabel = TypeError).
Proof.
  split; [|split].
  - destruct desc; try discriminate; reflexivity.
  - intros Hd Hp. unfold descToSchema. rewrite (read_total desc "displayName" Hd).
    assert (Hloop : (let* props :=
                       iterate (if truthy (get desc "properties")
                                then get desc "properties" else VArr []) in
                     for_of props add_prop []) = Normal []).
    { destruct Hp as [->|[str ->]]; [reflexivity|].
      destruct (truthy (VStr str)); simpl; [apply for_of_chars | reflexivity]. }
    simpl.
    destruct (iterate (if truthy (get desc "properties") then get desc "properties"
                       else VArr [])) as [props| |]; simpl in *; try discriminate.
    rewrite Hloop. simpl. eexists. split; [reflexivity | now obj_simpl].
  - intros Hd Ht Ha Hs. unfold descToSchema. rewrite (read_total desc "displayName" Hd).
    rewrite Ht. simpl.
    destruct (get desc "properties"); try discriminate; try reflexivity.
    now elim (Hs s).
Qed.

Lemma descToSchema_edge_inputs_witness :
  descToSchema VNull VUndef = TypeError
  /\ (exists schema, descToSchema ex_versioned_desc VUndef = Normal (VObj schema)
                     /\ get_own schema "properties" = VObj [])
  /\ descToSchema (VObj [("name", VStr "n"); ("properties", VNum 3)]) VUndef = TypeError.
Proof.
  split; [|split].
  - destruct (descToSchema_edge_inputs VNull VUndef) as (H & _). now apply H.
  - destruct (descToSchema_edge_inputs ex_versioned_desc VUndef) as (_ & H & _).
    apply H; [reflexivity | left; reflexivity].
  - destruct (descToSchema_edge_inputs
                (VObj [("name", VStr "n"); ("properties", VNum 3)]) VUndef) as (_ & _ & H).
    apply H; try reflexivity. discriminate.
Defined.

(** X15: the names [safeName] leaves alone.  A string is returned as it
    is exactly when it is not empty and is sanitised: free of forbidden
    characters and white space, with no two underscores in a row and none
    in front or at the end. *)
Theorem safeName_fixed_points r :
  safeName (VStr r) = Normal r <-> r <> "" /\ sanitized r = true.
Proof.
  split.
  - apply safeName_normal.
  - intros [Hne Hs]. now apply safeName_sanitized.
Qed.

Section Fallback.

Import Re.

Lemma remove_forbidden_junk s :
  all_chars junk s = true ->
  all_chars (fun c => whitespace c || underscore c) (remove forbidden s) = true.
Proof.
  induction s as [|c r IH]; simpl; [reflexivity|].
  rewrite andb_true_iff. intros [Hc Hr]. unfold junk in Hc.
  destruct (forbidden c) eqn:E; simpl; [auto|].
  simpl in Hc. now rewrite Hc, IH.
Qed.

Lemma squeeze_whitespace_underscores b s :
  all_chars (fun c => whitespace c || underscore c) s = true ->
  all_chars underscore (squeeze whitespace b s) = true.
Proof.
  revert b. induction s as [|c r IH]; simpl; intros b; [reflexivity|].
  rewrite andb_true_iff. intros [Hc Hr].
  destruct (whitespace c) eqn:E; [destruct b|]; simpl; rewrite ?IH; auto.
  simpl in Hc. now rewrite Hc.
Qed.

Lemma drop_leading_all p s : all_chars p s = true -> drop_leading p s = "".
Proof.
  induction s as [|c r IH]; simpl; [reflexivity|].
  rewrite andb_true_iff. intros [-> Hr]. auto.
Qed.

Lemma sanitize_junk s : all_chars junk s = true -> sanitize s = "".
Proof.
  intros H. unfold sanitize, replace_whitespace_runs, collapse_underscores,
    strip_underscores.
  rewrite (drop_leading_all underscore); [reflexivity|].
  apply squeeze_keeps; [reflexivity|].
  now apply squeeze_whitespace_underscores, remove_forbidden_junk.
Qed.

Lemma remove_length p s : String.length (remove p s) <= String.length s.
Proof. induction s as [|c r IH]; simpl; [lia|]. destruct (p c); simpl; lia. Qed.

Lemma squeeze_length p b s : String.length (squeeze p b s) <= String.length s.
Proof.
  revert b. induction s as [|c r IH]; simpl; intros b; [lia|].
  destruct (p c); [destruct b|]; simpl;
    match goal with |- context [squeeze p ?x r] => specialize (IH x) end; lia.
Qed.

Lemma drop_leading_length p s : String.length (drop_leading p s) <= String.length s.
Proof. induction s as [|c r IH]; simpl; [lia|]. destruct (p c); simpl; lia. Qed.

Lemma drop_trailing_length p s : String.length (drop_trailing p s) <= String.length s.
Proof.
  induction s as [|c r IH]; [simpl; lia|].
  rewrite drop_trailing_cons. destruct (drop_trailing p r) as [|c' r'].
  - destruct (p c); simpl; lia.
  - simpl in *. lia.
Qed.

Lemma sanitize_length s : String.length (sanitize s) <= String.length s.
Proof.
  unfold sanitize, trim, strip_underscores, collapse_underscores,
    replace_whitespace_runs.
  repeat (eapply Nat.le_trans;
          [first [apply drop_trailing_length | apply drop_leading_length
                 | apply squeeze_length]|]).
  apply remove_length.
Qed.

End Fallback.

(** X16: when [safeName] falls back.  Every falsy input ([undefined],
    [null], [false], [0], the empty string) gives the name [unknown], and
    so does every string made of nothing but forbidden characters, white
    space and underscores. *)
Theorem safeName_unknown :
  (forall v, truthy v = false -> safeName v = Normal "unknown")
  /\ (forall s, all_chars junk s = true -> safeName (VStr s) = Normal "unknown").
Proof.
  split.
  - intros v Hv. unfold safeName. rewrite Hv. reflexivity.
  - intros s Hs. unfold safeName.
    destruct (truthy (VStr s)); simpl; [|reflexivity].
    now rewrite (sanitize_junk s Hs).
Qed.

Lemma safeName_unknown_witness :
  safeName (VNum 0) = Normal "unknown" /\ safeName (VStr " _/_ ") = Normal "unknown".
Proof.
  destruct safeName_unknown as [F J]. split; [apply F | apply J]; reflexivity.
Defined.

(** X17: [safeName] does not lengthen.  The name it makes of a truthy
    value is never longer than the string that value converts to, unless
    it is the fallback [unknown]. *)
Theorem safeName_length v s r :
  truthy v = true ->
  to_string v = Normal s ->
  safeName v = Normal r ->
  r = "unknown" \/ String.length r <= String.length s.
Proof.
  intros Ht Hs. unfold safeName. rewrite Ht, Hs. simpl. intros E. inversion E.
  destruct (sanitize s =? ""); [now left | right; apply sanitize_length].
Qed.

Lemma safeName_length_witness :
  String.length "Send_Receive_e-mail" <= String.length " Send / Receive  e-mail_ ".
Proof.
  destruct (safeName_length (VStr " Send / Receive  e-mail_ ") " Send / Receive  e-mail_ "
              "Send_Receive_e-mail") as [E|H]; try reflexivity.
  - discriminate E.
  - exact H.
Defined.

Section FileNames.

Lemma all_chars_append q a b :
  all_chars q (a ++ b) = all_chars q a && all_chars q b.
Proof.
  induction a as [|c r IH]; simpl; [reflexivity|]. now rewrite IH, andb_assoc.
Qed.

Lemma length_append a b : String.length (a ++ b) = String.length a + String.length b.
Proof. induction a as [|c r IH]; simpl; [reflexivity | now rewrite IH]. Qed.

Lemma append_inv_head a b c : a ++ b = a ++ c -> b = c.
Proof. induction a as [|x r IH]; simpl; [auto|]. intros E. inversion E. auto. Qed.

Lemma append_inv_tail t b c : b ++ t = c ++ t -> b = c.
Proof.
  revert c. induction b as [|x r IH]; intros [|y c]; simpl; intros E.
  - reflexivity.
  - apply (f_equal String.length) in E. simpl in E. rewrite length_append in E. lia.
  - apply (f_equal String.length) in E. simpl in E. rewrite length_append in E. lia.
  - inversion E. f_equal. auto.
Qed.

Lemma fname_normal merged count ver f :
  fname merged count ver = Normal f ->
  exists stem,
    f = stem ++ vSuffix count ver ++ ".json" /\ stem <> "" /\ sanitized stem = true.
Proof.
  unfold fname. intros H. apply bind_normal in H as (stem & Hstem & H).
  inversion H. exists stem. split; [reflexivity|]. now apply safeName_normal in Hstem.
Qed.

End FileNames.

(** X18: the characters of a file name.  The name line 282 gives a file
    is a non-empty sanitised stem, the version suffix, and [.json]; the
    suffix is there only for a version key of a node with more than one
    version to process, and holds the key as it is.  So the file name has
    a forbidden character (a path separator, say) exactly when such a key
    has one. *)
Theorem fname_characters merged count ver f :
  fname merged count ver = Normal f ->
  (exists stem,
      f = stem ++ vSuffix count ver ++ ".json" /\ stem <> "" /\ sanitized stem = true)
  /\ all_chars (non Re.forbidden) f
     = match ver with
       | Some v => if (1 <? count)%nat then all_chars (non Re.forbidden) v else true
       | None => true
       end.
Proof.
  intros H. split; [now apply fname_normal in H|].
  apply fname_normal in H as (stem & -> & _ & Hs).
  unfold sanitized in Hs. rewrite !andb_true_iff in Hs.
  destruct Hs as [[[[F _] _] _] _].
  rewrite !all_chars_append, F. unfold vSuffix.
  destruct ver as [v|]; [destruct (1 <? count)%nat|]; simpl;
    rewrite ?all_chars_append, ?andb_true_r; reflexivity.
Qed.

Lemma fname_characters_witness :
  exists f, fname ex_versioned_desc 2 (Some "1.1") = Normal f
            /\ f = "HTTP_Request_v1.1.json"
            /\ all_chars (non Re.forbidden) f = true.
Proof.
  assert (E : exists f, fname ex_versioned_desc 2 (Some "1.1") = Normal f)
    by (eexists; vm_compute; reflexivity).
  destruct E as [f E]. exists f. split; [exact E|].
  destruct (fname_characters ex_versioned_desc 2 (Some "1.1") f E) as [_ H].
  split; [|rewrite H; reflexivity].
  vm_compute in E. now inversion E.
Defined.

(** X19: when version keys keep file names apart.  With more than one
    version to process, two versions whose merged descriptions give the
    same stem (the same [safeName] of display name or name) get different
    file names whenever their keys differ.  Versions with different stems
    can share a file name: [Foo] under the key [1_v2] and [Foo v1] under
    the key [2] are both written to [Foo_v1_v2.json]. *)
Theorem fname_versions_distinct :
  (forall merged merged' count ver ver' f f',
      1 < count ->
      ver <> ver' ->
      safeName (displayed merged) = safeName (displayed merged') ->
      fname merged count (Some ver) = Normal f ->
      fname merged' count (Some ver') = Normal f' ->
      f <> f')
  /\ (fname ex_foo 2 (Some "1_v2") = Normal "Foo_v1_v2.json"
      /\ fname ex_foo_v1 2 (Some "2") = Normal "Foo_v1_v2.json").
Proof.
  split; [|split; vm_compute; reflexivity].
  intros merged merged' count ver ver' f f' Hc Hne Hsame H H'.
  unfold fname in H, H'. fold (displayed merged) in H. fold (displayed merged') in H'.
  apply bind_normal in H as (stem & Hstem & H).
  apply bind_normal in H' as (stem' & Hstem' & H').
  rewrite Hsame, Hstem' in Hstem. inversion Hstem; subst stem'.
  inversion H; inversion H'. unfold vSuffix.
  apply Nat.ltb_lt in Hc. rewrite Hc. intros E.
  apply append_inv_head in E.
  assert (E' : ("_v" ++ ver) ++ ".json" = ("_v" ++ ver') ++ ".json") by exact E.
  apply append_inv_tail in E'. apply (append_inv_head "_v") in E'. contradiction.
Qed.

Lemma fname_versions_distinct_witness :
  "HTTP_Request_v1.json" <> "HTTP_Request_v2.json".
Proof.
  destruct fname_versions_distinct as [H _].
  apply (H ex_versioned_desc ex_versioned_desc 2 "1" "2");
    [lia | discriminate | reflexivity | reflexivity | reflexivity].
Defined.

Section Merge.

Lemma lookup_define o k v k' :
  lookup k' (define o k v) = if k =? k' then Some v else lookup k' o.
Proof.
  unfold define. destruct (has_own k o) eqn:Hk.
  - now rewrite lookup_replace, Hk, andb_true_r.
  - rewrite lookup_app. simpl. destruct (String.eqb_spec k k') as [<-|_].
    + unfold has_own in Hk. now destruct (lookup k o).
    + now destruct (lookup k' o).
Qed.

Lemma lookup_Some_In k v (l : obj) : NoDup (keys l) -> In (k, v) l -> lookup k l = Some v.
Proof.
  induction l as [|[e w] tl IH]; simpl; [tauto|]. intros Hnd [E|Hin].
  - inversion E; subst. now rewrite String.eqb_refl.
  - inversion Hnd as [|? ? Hnot Hnd']; subst.
    destruct (String.eqb_spec e k) as [->|_]; [|auto].
    elim Hnot. unfold keys. change k with (fst (k, v)). now apply in_map.
Qed.

(** Where no key is held twice, the order of the properties does not
    matter to a lookup. *)
Lemma lookup_Permutation k (l l' : obj) :
  NoDup (keys l) -> Permutation l' l -> lookup k l' = lookup k l.
Proof.
  intros Hnd Hp.
  assert (Hnd' : NoDup (keys l')).
  { unfold keys. eapply Permutation_NoDup; [|exact Hnd].
    apply Permutation_map, Permutation_sym, Hp. }
  destruct (lookup k l) as [v|] eqn:E.
  - apply lookup_Some_In; [assumption|].
    eapply Permutation_in; [apply Permutation_sym, Hp | now apply lookup_In].
  - destruct (lookup k l') as [v|] eqn:E'; [|reflexivity].
    apply lookup_In in E'. eapply Permutation_in in E'; [|exact Hp].
    apply (lookup_Some_In k v l Hnd) in E'. congruence.
Qed.

Lemma insert_index_Permutation n e l :
  Permutation (map snd (insert_index n e l)) (e :: map snd l).
Proof.
  induction l as [|[m e'] tl IH]; simpl; [reflexivity|].
  destruct (n <? m)%N; simpl; [reflexivity|].
  rewrite IH. apply perm_swap.
Qed.

Lemma ownKeys_Permutation o : Permutation (ownKeys o) o.
Proof.
  unfold ownKeys. induction o as [|[k v] tl IH]; simpl; [reflexivity|].
  destruct (array_index k); simpl.
  - rewrite insert_index_Permutation. simpl. now apply perm_skip.
  - rewrite <- Permutation_middle. now apply perm_skip.
Qed.

Lemma lookup_fold_define (l : obj) t k :
  lookup k (fold_left (fun t kv => define t (fst kv) (snd kv)) l t)
  = match lookup k (rev l) with Some v => Some v | None => lookup k t end.
Proof.
  revert t. induction l as [|[e w] tl IH]; simpl; intros t; [reflexivity|].
  rewrite IH, lookup_app, lookup_define. simpl.
  destruct (lookup k (rev tl)); [reflexivity|].
  now destruct (e =? k).
Qed.

(** What a spread of a record leaves under a key: the property of the
    record, or else what the target had. *)
Lemma lookup_spread t o k :
  NoDup (keys o) ->
  lookup k (spread t (VObj o))
  = match lookup k o with Some v => Some v | None => lookup k t end.
Proof.
  intros Hnd. unfold spread. simpl. rewrite lookup_fold_define.
  rewrite (lookup_Permutation k o (rev (ownKeys o)) Hnd);
    [reflexivity|].
  rewrite <- Permutation_rev. apply ownKeys_Permutation.
Qed.

End Merge.

(** X20: the merge of a version into the base description, line 277,
    for records that hold no key twice.  The [properties] of the merged
    description are those of the version, whatever the base lists; under
    every other key the merged description holds what the version holds
    if the version has the key (even when that is [undefined]), and what
    the base holds otherwise.  Without a base the description is taken as
    it is. *)
Theorem merged_fields base desc :
  NoDup (keys base) -> NoDup (keys desc) ->
  get (merged (VObj base) (VObj desc)) "properties" = get_own desc "properties"
  /\ (forall k, k <> "properties" ->
        get (merged (VObj base) (VObj desc)) k
        = if has_own k desc then get_own desc k else get_own base k)
  /\ merged VNull (VObj desc) = VObj desc.
Proof.
  intros Hb Hd. split; [|split; [|reflexivity]].
  - unfold merged. simpl. unfold get_own. now rewrite lookup_define.
  - intros k Hk. unfold merged. simpl. unfold get_own, has_own.
    rewrite lookup_define.
    destruct (String.eqb_spec "properties" k) as [E|_]; [now elim Hk|].
    rewrite (lookup_spread _ desc k Hd), (lookup_spread _ base k Hb). simpl.
    destruct (lookup k desc); [reflexivity|]. now destruct (lookup k base).
Qed.

Lemma merged_fields_witness :
  get (merged (VObj ex_base) (VObj ex_version)) "properties" = VArr [ex_timeout]
  /\ get (merged (VObj ex_base) (VObj ex_version)) "group" = VStr "input"
  /\ get (merged (VObj ex_base) (VObj ex_version)) "name" = VStr "httpRequest".
Proof.
  assert (Hb : NoDup (keys ex_base)).
  { unfold ex_base, keys. simpl. repeat constructor; simpl; intuition discriminate. }
  assert (Hd : NoDup (keys ex_version)).
  { unfold ex_version, keys. simpl. repeat constructor; simpl; intuition discriminate. }
  destruct (merged_fields ex_base ex_version Hb Hd) as (P & K & _).
  split; [rewrite P; reflexivity|].
  split; rewrite K by discriminate; reflexivity.
Defined.
